(** * ebltable: the EBL interpolator of [ebl_from_model.py]

    A shallow embedding of the class [EBL] (construction, property
    accessors, [ebl_array], [n_array], [ebl_int], [readmodel]) together with
    the properties stated about it.

    Numbers.  Python floats are modelled by the real numbers [R]; numpy's
    [log10], [log] and [power(10., .)] by the corresponding real functions.
    The real model is faithful where these functions are defined, that is
    for positive arguments of the logarithms; statements about wavelengths
    therefore assume them positive.

    Libraries.  numpy's sorting routines, the FITPACK surface fit behind
    scipy's [RectBivariateSpline], scipy's [simps], astropy's constants and
    [numpy.loadtxt] are not part of the repository; they are interfaces
    (type classes) whose laws are the documented contracts the code relies
    on. *)

From Stdlib Require Import Reals Lra String Ascii.
From stdpp Require Import base list gmap strings sorting.

Local Open Scope R_scope.

(** ** Outcomes of Python code *)

Inductive pyerr : Type :=
  | ValueError (msg : string)
  | TypeError (msg : string)
  | AttributeError (attr : string)
  | IndexError
  | IOError.

Inductive result (A : Type) : Type :=
  | Ok (a : A)
  | Raise (e : pyerr).
Arguments Ok {A} a.
Arguments Raise {A} e.

Global Instance result_ret : MRet result := @Ok.
Global Instance result_bind : MBind result := λ A B f m,
  match m with
  | Ok a => f a
  | Raise e => Raise e
  end.

(** [warnings.warn(msg, RuntimeWarning)]; the message of the only warning of
    the module is determined by the tabulated [self._z[0]] it formats. *)
Inductive warning : Type :=
  | RuntimeWarning (zmin : R).

(** ** Real functions behind numpy's ufuncs *)

Definition log10 (x : R) : R := ln x / ln 10.
Definition pow10 (x : R) : R := exp (x * ln 10).

Global Instance Rle_decision : RelDecision Rle := Rle_dec.
Global Instance Rlt_decision : RelDecision Rlt := Rlt_dec.
Global Instance Req_decision : EqDecision R := Req_dec_T.

(** ** Arrays

    One-dimensional arrays are lists; a two-dimensional array is the list of
    its rows. *)

Abbreviation grid := (list (list R)).

(** The three kinds of argument the query methods distinguish with
    [np.isscalar] and [type(.) == list]. *)
Inductive pyarg : Type :=
  | PScalar (x : R)
  | PList (l : list R)
  | PArray (a : list R).

(** What a method returns: a Python float or a numpy array. *)
Inductive pyval : Type :=
  | VFloat (x : R)
  | VArr1 (a : list R)
  | VArr2 (g : grid).

(** A ufunc applied to a two-dimensional array. *)
Definition grid_map (f : R → R) (g : grid) : grid :=
  (λ row : list R, f <$> row) <$> g.

(** [np.zeros((m, n))] *)
Definition zeros (m n : nat) : grid := replicate m (replicate n 0).

(** [a[idx]] for an index array [idx] (indices in range). *)
Definition gather {A} (d : A) (a : list A) (idx : list nat) : list A :=
  (λ i, default d (a !! i)) <$> idx.

(** [base[idx] = vals] along the first axis: the k-th value is stored at
    position [idx[k]], in order.  numpy raises [IndexError] for an index out
    of range and [ValueError] when the shapes differ. *)
Fixpoint scatter {A} (base : list A) (idx : list nat) (vals : list A)
  : result (list A) :=
  match idx, vals with
  | [], [] => Ok base
  | i :: idx', v :: vals' =>
      if decide (i < length base)%nat
      then scatter (<[i := v]> base) idx' vals'
      else Raise IndexError
  | _, _ => Raise (ValueError "shape mismatch")
  end.

(** [base[:, idx] = vals]: the same assignment in every row. *)
Fixpoint scatter_cols (base : grid) (idx : list nat) (vals : grid)
  : result grid :=
  match base, vals with
  | [], [] => Ok []
  | b :: base', v :: vals' =>
      r ← scatter b idx v;
      rs ← scatter_cols base' idx vals';
      Ok (r :: rs)
  | _, _ => Raise (ValueError "shape mismatch")
  end.

(** [g.T] for an array [g] with [ncols] columns (a list of rows does not
    record the column count of an array without rows). *)
Definition transpose (ncols : nat) (g : grid) : grid :=
  (λ b, (λ row, default 0 (row !! b)) <$> g) <$> seq 0 ncols.

(** [np.all(np.diff(x) > 0.0)] *)
Definition strictly_increasing (x : list R) : bool :=
  bool_decide (Sorted Rlt x).

(** The coordinate check of FITPACK's evaluator: [x(i-1) <= x(i)]. *)
Definition non_decreasing (x : list R) : bool :=
  bool_decide (Sorted Rle x).

(** [np.linspace(start, stop, num)] with the default [endpoint=True]. *)
Definition linspace (start stop : R) (num : nat) : list R :=
  match num with
  | O => []
  | 1%nat => [0 * (stop - start) + start]
  | S div =>
      let step := (stop - start) / INR div in
      ((λ i, INR i * step + start) <$> seq 0 div) ++ [stop]
  end.

(** numpy's sorting routines: [np.argsort] returns the indices that sort its
    argument, [np.sort] the sorted copy. *)
Class NumpySort : Type := {
  np_sort : list R → list R;
  np_argsort : list R → list nat;
  np_argsort_perm l : np_argsort l ≡ₚ seq 0 (length l);
  np_sort_argsort l : np_sort l = gather 0 l (np_argsort l);
  np_sort_sorted l : Sorted Rle (np_sort l);
}.

(** The FITPACK routine behind [RectBivariateSpline]: from the two axes, the
    grid and the two degrees it returns the fitted surface (here the function
    that evaluating the surface computes at a point) or fails. *)
Class Fitpack : Type := {
  regrid_smth : list R → list R → grid → nat → nat → result (R → R → R);
}.

(** [scipy.integrate.simps] on one-dimensional samples [y] at abscissae [x]. *)
Class Quadrature : Type := {
  simps1 : list R → list R → R;
}.

(** [astropy.constants]: Planck constant, speed of light and elementary
    charge, as SI values. *)
Class Constants : Type := {
  const_h : R;
  const_c : R;
  const_e : R;
  const_h_pos : 0 < const_h;
  const_c_pos : 0 < const_c;
  const_e_pos : 0 < const_e;
}.

(** The directory of the module ([os.path.split(__file__)[0]]) and
    [np.loadtxt] on the files below it. *)
Class DataFiles : Type := {
  module_dir : string;
  loadtxt : string → result pyval;
}.

(** ** scipy's [RectBivariateSpline] *)

Section Spline.
Context `{Fitpack}.

(** The constructor validates the axes and the shape of the grid, then
    fits. *)
Definition RBSpline (x y : list R) (z : grid) (kx ky : nat)
  : result (R → R → R) :=
  if negb (strictly_increasing x)
  then Raise (ValueError "x must be strictly increasing")
  else if negb (strictly_increasing y)
  then Raise (ValueError "y must be strictly increasing")
  else if bool_decide (x = [] ∨ y = [])
  then Raise (ValueError "zero-size array to reduction operation minimum which has no identity")
  else if negb (bool_decide (length x = length z))
  then Raise (ValueError "x dimension of z must have same number of elements as x")
  else if negb (bool_decide (Forall (λ row, length row = length y) z))
  then Raise (ValueError "y dimension of z must have same number of elements as y")
  else regrid_smth x y z kx ky.

(** Calling the spline on two coordinate arrays evaluates it on their
    grid; the evaluator rejects coordinates that are not sorted. *)
Definition spline_call (s : R → R → R) (x y : list R) : result grid :=
  if non_decreasing x && non_decreasing y
  then Ok ((λ xa, (λ yb, s xa yb) <$> y) <$> x)
  else Raise (ValueError "Error code returned by bispev: 10").
End Spline.

(** ** Objects and methods

    An instance of [EBL] is its attribute dictionary.  A method is a
    computation on that dictionary which may emit warnings and either
    returns or raises. *)

Inductive attr : Type :=
  | AArr1 (a : list R)
  | AArr2 (g : grid)
  | ASpline (s : R → R → R).

Abbreviation obj := (gmap string attr).

Definition Py (A : Type) : Type := obj → obj * list warning * result A.

Global Instance Py_ret : MRet Py := λ A a self, (self, [], Ok a).
Global Instance Py_bind : MBind Py := λ A B f m self,
  match m self with
  | (self1, w1, Ok a) =>
      match f a self1 with
      | (self2, w2, r) => (self2, w1 ++ w2, r)
      end
  | (self1, w1, Raise e) => (self1, w1, Raise e)
  end.

Definition getattr (name : string) : Py attr := λ self,
  match self !! name with
  | Some v => (self, [], Ok v)
  | None => (self, [], Raise (AttributeError name))
  end.

Definition setattr (name : string) (v : attr) : Py unit := λ self,
  (<[name := v]> self, [], Ok tt).

Definition warn (w : warning) : Py unit := λ self, (self, [w], Ok tt).

Definition lift {A} (r : result A) : Py A := λ self, (self, [], r).

Definition as_arr1 (v : attr) : result (list R) :=
  match v with
  | AArr1 a => Ok a
  | _ => Raise (TypeError "one-dimensional array expected")
  end.

Definition as_arr2 (v : attr) : result grid :=
  match v with
  | AArr2 g => Ok g
  | _ => Raise (TypeError "two-dimensional array expected")
  end.

Definition as_spline (v : attr) : result (R → R → R) :=
  match v with
  | ASpline s => Ok s
  | _ => Raise (TypeError "object is not callable")
  end.

(** [a[0]] *)
Definition index0 (a : list R) : result R :=
  match a with
  | x :: _ => Ok x
  | [] => Raise IndexError
  end.

(** [a.shape[0]]: only arrays have a shape. *)
Definition shape0 (a : pyarg) : result nat :=
  match a with
  | PArray a => Ok (length a)
  | _ => Raise (AttributeError "shape")
  end.

(** The numbers in an argument, as [np.array(.)] sees them. *)
Definition contents (a : pyarg) : list R :=
  match a with
  | PScalar x => [x]
  | PList l => l
  | PArray a => a
  end.

Section EBL.
Context `{NumpySort, Fitpack, Quadrature, Constants}.

(** [self.__eblSpline = RBSpline(self.<xname>, self._z, self._nuInu,
    kx=kx, ky=ky)]; inside the class the name [__eblSpline] is the
    attribute [_EBL__eblSpline]. *)
Definition refit (xname : string) (kx ky : nat) : Py unit :=
  x ← getattr xname;
  y ← getattr "_z";
  g ← getattr "_nuInu";
  s ← lift (x ← as_arr1 x; y ← as_arr1 y; g ← as_arr2 g;
            RBSpline x y g kx ky);
  setattr "_EBL__eblSpline" (ASpline s).

(** [__init__] *)
Definition EBL_init (z lmu : list R) (nuInu : grid) (kx ky : nat)
  : Py unit :=
  setattr "_z" (AArr1 z);;
  setattr "_loglmu" (AArr1 (log10 <$> lmu));;
  setattr "_nuInu" (AArr2 (grid_map log10 nuInu));;
  refit "_loglmu" kx ky.

(** [EBL(z, lmu, nuInu, kx, ky)]: the new instance, when [__init__]
    returns. *)
Definition EBL_new (z lmu : list R) (nuInu : grid) (kx ky : nat)
  : result obj :=
  match EBL_init z lmu nuInu kx ky ∅ with
  | (self, _, Ok _) => Ok self
  | (_, _, Raise e) => Raise e
  end.

Definition loglmu_getter : Py attr := getattr "_loglmu".
Definition nuInu_getter : Py attr := getattr "_nuInu".

Definition z_setter (z : list R) (kx ky : nat) : Py unit :=
  setattr "_z" (AArr1 z);;
  refit "_loglnu" kx ky.

Definition loglmu_setter (lmu : list R) (kx ky : nat) : Py unit :=
  setattr "_loglmu" (AArr1 (log10 <$> lmu));;
  refit "_loglnu" kx ky.

Definition nuInu_setter (nuInu : grid) (kx ky : nat) : Py unit :=
  setattr "_nuInu" (AArr2 (grid_map log10 nuInu));;
  refit "_loglnu" kx ky.

(** Lines 318-328 of [ebl_array]: evaluate the spline [s] on the sorted
    coordinates and scatter the values back to the requested order; [n]
    is [lmu.shape[0]]. *)
Definition sorted_eval (s : R → R → R) (z lmu : list R) (n : nat)
  : result grid :=
  let result := zeros (length z) n in
  let tt := zeros (length z) n in
  let args_z := np_argsort z in
  let args_l := np_argsort lmu in
  v ← spline_call s (log10 <$> np_sort lmu) (np_sort z);
  tt ← scatter tt args_z (transpose (length z) v);
  result ← scatter_cols result args_l tt;
  Ok (grid_map pow10 result).

(** [ebl_array] *)
Definition ebl_array (z lmu : pyarg) : Py grid :=
  let lmu :=
    match lmu with
    | PScalar x => PArray [x]
    | PList l => PList l            (* ETeV = np.array(lmu) *)
    | PArray a => PArray a
    end in
  let z :=
    match z with
    | PScalar x => [x]
    | PList l => l
    | PArray a => a
    end in
  ztab ← getattr "_z";
  z0 ← lift (ztab ← as_arr1 ztab; index0 ztab);
  (if bool_decide (Exists (λ zi, zi < z0) z)
   then warn (RuntimeWarning z0) else mret tt);;
  n ← lift (shape0 lmu);
  s ← getattr "_EBL__eblSpline";
  lift (s ← as_spline s; sorted_eval s z (contents lmu) n).

(** [n_array] *)
Definition n_array (z EeV : pyarg) : Py grid :=
  let EeV := contents EeV in
  let z := contents z in
  let l := (λ E, const_h * const_c / (E * const_e) * 1e6) <$> EeV in
  let e_J := (λ E, E * const_e) <$> EeV in
  n ← ebl_array (PArray z) (PArray l);
  let n := (λ row : list R,
    zip_with (λ eJ v, 4 * PI / const_c / eJ ^ 2 * v * 1e-9) e_J row) <$> n in
  mret (grid_map (λ v, v * const_e * 1e-6) n).

(** [simps(y, x)] integrates along the last axis of [y]: a
    one-dimensional [y] gives a float, a two-dimensional one an array
    with one entry per row. *)
Definition simps (y : pyval) (x : list R) : result pyval :=
  match y with
  | VFloat _ => Raise IndexError
  | VArr1 a =>
      if bool_decide (length x = length a)
      then Ok (VFloat (simps1 a x))
      else Raise (ValueError "If given, length of x along axis must be the same as y.")
  | VArr2 g =>
      if bool_decide (Forall (λ row, length x = length row) g)
      then Ok (VArr1 ((λ row, simps1 row x) <$> g))
      else Raise (ValueError "If given, length of x along axis must be the same as y.")
  end.

(** The wavelengths at which [ebl_int] samples the intensity and the
    abscissae it hands to [simps]. *)
Definition ebl_int_wavelengths (lmin lmax : R) (steps : nat) : list R :=
  pow10 <$> linspace (log10 lmin) (log10 lmax) steps.

Definition ebl_int_abscissae (lmin lmax : R) (steps : nat) : list R :=
  ln <$> linspace lmin lmax steps.

(** [ebl_int] *)
Definition ebl_int (z : pyarg) (lmin lmax : R) (steps : nat) : Py pyval :=
  let lnl := ebl_int_abscissae lmin lmax steps in
  g ← ebl_array z (PArray (ebl_int_wavelengths lmin lmax steps));
  let ln_Il := grid_map (λ v, ln 10 * v) g in
  lift (simps (VArr2 ln_Il) lnl).
End EBL.

(** ** The model loader [readmodel] *)

(** [s.find(sub)]: the lowest index at which [sub] occurs in [s], or -1. *)
Fixpoint str_find_from (sub s : string) (pos : Z) : Z :=
  if String.prefix sub s then pos
  else match s with
       | EmptyString => (-1)%Z
       | String _ s' => str_find_from sub s' (pos + 1)%Z
       end.

Definition str_find (s sub : string) : Z := str_find_from sub s 0%Z.

Fixpoint ends_with_slash (s : string) : bool :=
  match s with
  | EmptyString => false
  | String c EmptyString => bool_decide (c = "/"%char)
  | String _ s' => ends_with_slash s'
  end.

(** [os.path.join(a, b)] *)
Definition path_join (a b : string) : string :=
  if String.prefix "/" b then b
  else if bool_decide (a = EmptyString) || ends_with_slash a
       then (a ++ b)%string
       else (a ++ "/" ++ b)%string.

(** Indexing a loaded table needs two dimensions. *)
Definition as_table (v : pyval) : result grid :=
  match v with
  | VArr2 g => Ok g
  | _ => Raise IndexError
  end.

(** [np.array([c]).T]: the column [c] as a two-dimensional array. *)
Definition column_array (c : list R) : grid := (λ v, [v]) <$> c.

(** A ufunc applied to a one-dimensional array. *)
Definition arr_map (f : R → R) (a : list R) : list R := f <$> a.

(** [rows[:, j]] *)
Definition col (j : nat) (rows : grid) : result (list R) :=
  if bool_decide (Forall (λ row : list R, (j < length row)%nat) rows)
  then Ok ((λ row : list R, default 0 (row !! j)) <$> rows)
  else Raise IndexError.

(** [data[0]] *)
Definition row0 (data : grid) : result (list R) :=
  match data with
  | r :: _ => Ok r
  | [] => Raise IndexError
  end.

(** [a[1:-1]] *)
Definition inner (a : list R) : list R := removelast (drop 1 a).

(** [a[a == 0.] = floor] *)
Definition floor_zeros (floor : R) (a : list R) : list R :=
  (λ v, if bool_decide (v = 0) then floor else v) <$> a.

(** [(g.T * w).T]: row [i] of [g] scaled by [f (w[i])]. *)
Definition scale_rows (f : R → R → R) (w : list R) (g : grid) : grid :=
  zip_with (λ wi (row : list R), f wi <$> row) w g.

(** [for i in idx: lmu[i+1] = (lmu[i+2] + lmu[i]) / 2.] *)
Fixpoint spread_ties (idx : list nat) (lmu : list R) : result (list R) :=
  match idx with
  | [] => Ok lmu
  | i :: idx' =>
      match lmu !! (i + 2)%nat, lmu !! i with
      | Some b, Some a =>
          if decide (i + 1 < length lmu)%nat
          then spread_ties idx' (<[(i + 1)%nat := (b + a) / 2]> lmu)
          else Raise IndexError
      | _, _ => Raise IndexError
      end
  end.

(** [np.where(np.diff(lmu) == 0.)[0]] *)
Fixpoint ties_from (i : nat) (lmu : list R) : list nat :=
  match lmu with
  | a :: (b :: _) as rest =>
      if bool_decide (b - a = 0) then i :: ties_from (S i) rest
      else ties_from (S i) rest
  | _ => []
  end.

Definition recognized_models : list string :=
  ["kneiske"; "franceschini"; "dominguez"; "dominguez-upper";
   "dominguez-lower"; "inoue"; "inoue-low-pop3"; "inoue-up-pop3";
   "gilmore"; "gilmore-fixed"; "cuba"; "finke"]%string.

Section Loader.
Context `{NumpySort, Fitpack, Quadrature, Constants, DataFiles}.

Definition ebl_file_path : string := path_join module_dir "data/".

Definition model_file (model : string) : result string :=
  if (model =? "kneiske")%string then
    Ok (path_join ebl_file_path "ebl_nuFnu_tanja.dat")
  else if (model =? "franceschini")%string then
    Ok (path_join ebl_file_path "ebl_franceschini.dat")
  else if (model =? "dominguez")%string then
    Ok (path_join ebl_file_path "ebl_dominguez11.out")
  else if (model =? "dominguez-upper")%string then
    Ok (path_join ebl_file_path "ebl_upper_uncertainties_dominguez11.out")
  else if (model =? "dominguez-lower")%string then
    Ok (path_join ebl_file_path "ebl_lower_uncertainties_dominguez11.out")
  else if (model =? "inoue")%string then
    Ok (path_join ebl_file_path "EBL_z_0_baseline.dat")
  else if (model =? "inoue-low-pop3")%string then
    Ok (path_join ebl_file_path "EBL_z_0_low_pop3.dat")
  else if (model =? "inoue-up-pop3")%string then
    Ok (path_join ebl_file_path "EBL_z_0_up_pop3.dat")
  else if (model =? "gilmore")%string then
    Ok (path_join ebl_file_path "eblflux_fiducial.dat")
  else if (model =? "gilmore-fixed")%string then
    Ok (path_join ebl_file_path "eblflux_fixed.dat")
  else if (model =? "cuba")%string then
    Ok (path_join ebl_file_path "CUBA_UVB.dat")
  else if (model =? "finke")%string then
    Ok (path_join ebl_file_path "ebl_modelC_Finke.txt")
  else Raise (ValueError "Unknown EBL model chosen!").

Definition readmodel (model : string) : result obj :=
  file_name ← model_file model;
  data ← loadtxt file_name;
  if (0 <=? str_find model "inoue")%Z then
    let z := [0] in
    data ← as_table data;
    lmu ← col 0 data;
    c1 ← col 1 data;
    let nuInu := column_array c1 in
    Raise (ValueError "Inoue models not correctly implemented at the moment, choose another model")
  else if (0 <=? str_find model "gilmore")%Z then
    data ← as_table data;
    r0 ← row0 data;
    let z := drop 1 r0 in
    c0 ← col 0 (drop 1 data);
    let lmu := arr_map (λ v, v * 1e-4) c0 in
    let nuInu : grid := floor_zeros (1e-20 * 1) <$> (drop 1 <$> drop 1 data) in
    let nuInu :=
      grid_map (λ v, v * 1e4 * 1e-7 * 1e9)
               (scale_rows (λ w v, v * w) c0 nuInu) in
    EBL_new z lmu nuInu 2 2
  else if (model =? "cuba")%string then
    data ← as_table data;
    r0 ← row0 data;
    let z := inner r0 in
    c0 ← col 0 (drop 1 data);
    let lmu := arr_map (λ v, v * 1e-4) c0 in
    let nuInu : grid := floor_zeros (1 * 1e-20) <$> (inner <$> drop 1 data) in
    let nuInu :=
      scale_rows (λ l v, v * const_c / (l * 1e-6)) lmu nuInu in
    let nuInu := grid_map (λ v, v * 1e6) nuInu in
    lmu ← spread_ties (ties_from 0 lmu) lmu;
    EBL_new z lmu nuInu 2 2
  else
    data ← as_table data;
    r0 ← row0 data;
    let z := drop 1 r0 in
    c0 ← col 0 (drop 1 data);
    let lmu := c0 in
    let nuInu : grid := drop 1 <$> drop 1 data in
    if (model =? "finke")%string
    then EBL_new z (arr_map (λ v, v * 1e-4) (reverse lmu)) (reverse nuInu) 2 2
    else EBL_new z lmu nuInu 2 2.
End Loader.

(** ** The table reader [readascii] *)

Section Ascii.
Context `{Fitpack, DataFiles}.

Definition readascii (file_name : string) : result obj :=
  data ← loadtxt file_name;
  data ← as_table data;
  r0 ← row0 data;
  let z := drop 1 r0 in
  let nuInu : grid := drop 1 <$> drop 1 data in
  lmu ← col 0 (drop 1 data);
  EBL_new z lmu nuInu 2 2.
End Ascii.

(** ** Definitions used to state the properties *)

(** The grid of intensities: entry [i, j] is ten to the power of the spline
    at the decimal logarithm of the j-th wavelength and the i-th redshift. *)
Definition ebl_grid (s : R → R → R) (z lmu : list R) : grid :=
  (λ zi, (λ l, pow10 (s (log10 l) zi)) <$> lmu) <$> z.

(** What [ebl_array] emits for the requested redshifts [z] when the first
    tabulated redshift is [z0]. *)
Definition below_warning (z0 : R) (z : list R) : list warning :=
  if bool_decide (Exists (λ zi, zi < z0) z) then [RuntimeWarning z0] else [].

(** The attribute dictionary [__init__] leaves behind. *)
Definition fitted_obj (z loglmu : list R) (lognuInu : grid)
    (s : R → R → R) : obj :=
  <["_EBL__eblSpline" := ASpline s]>
    (<["_nuInu" := AArr2 lognuInu]>
      (<["_loglmu" := AArr1 loglmu]>
        (<["_z" := AArr1 z]> ∅))).

(** Entry [i, j] of a two-dimensional array. *)
Definition grid_at (g : grid) (i j : nat) : option R :=
  row ← g !! i; row !! j.

Global Instance Rlt_transitive : Transitive Rlt := Rlt_trans.

Section DensitySpec.
Context `{NumpySort, Constants}.

(** The query in the words of its specification: the energy in joules, the
    wavelength [h c / E_J] in microns, and the factor
    [4 pi / (c E_J^2)] with the scalings nW to W, per m^3 to per cm^3 and
    per J to per eV. *)
Definition energy_J (E : R) : R := E * const_e.

Definition wavelength_um (E : R) : R :=
  const_h * const_c / energy_J E * 1e6.

Definition density_factor (E : R) : R :=
  4 * PI / (const_c * energy_J E ^ 2) * 1e-9 * 1e-6 * const_e.

Definition density_at (z EeV : pyarg) : Py grid :=
  intensity ← ebl_array (PArray (contents z))
                 (PArray (wavelength_um <$> contents EeV));
  mret ((λ row : list R,
           zip_with (λ E v, density_factor E * v) (contents EeV) row)
        <$> intensity).
End DensitySpec.

Definition inoue_models : list string :=
  ["inoue"; "inoue-low-pop3"; "inoue-up-pop3"]%string.

Definition inoue_message : string :=
  "Inoue models not correctly implemented at the moment, choose another model".

(** The loop of lines 185-186 read along the list: [cur] is the current
    value of an entry, [orig] the value it had when the ties were located,
    [tail] the entries after it. *)
Fixpoint spread_from (cur orig : R) (tail : list R) : result (list R) :=
  match tail with
  | [] => Ok [cur]
  | b :: rest =>
      if bool_decide (b - orig = 0)
      then match rest with
           | c :: _ => r ← spread_from ((c + cur) / 2) b rest; Ok (cur :: r)
           | [] => Raise IndexError
           end
      else r ← spread_from b b rest; Ok (cur :: r)
  end.

(** Every pair of equal neighbours is followed by a strictly larger
    entry. *)
Fixpoint isolated_ties (l : list R) : Prop :=
  match l with
  | a :: ((b :: rest) as t) =>
      (b = a → match rest with c :: _ => b < c | [] => False end)
      ∧ isolated_ties t
  | _ => True
  end.


(** ** Instances of the library interfaces

    A stable merge sort of the (value, index) pairs, whose laws are proved
    below, a fit, a quadrature rule, the constants and a file system, used
    to run the statements on concrete queries. *)

Definition pair_le (p q : R * nat) : Prop := p.1 <= q.1.

Global Instance pair_le_dec : RelDecision pair_le.
Proof. intros p q. unfold pair_le. apply _. Defined.

Global Instance pair_le_total : Total pair_le.
Proof. intros p q. unfold pair_le. lra. Qed.

Definition sorted_pairs (l : list R) : list (R * nat) :=
  merge_sort pair_le (zip l (seq 0 (length l))).

(** A fit that returns the surface [x + y], and a three by three table. *)
Definition affine_fit : Fitpack :=
  {| regrid_smth _ _ _ _ _ := Ok (λ x y, x + y) |}.

Definition example_z : list R := [0; 1; 2].
Definition example_lmu : list R := [1; 10; 100].
Definition example_nuInu : grid := [[1; 2; 3]; [2; 3; 4]; [3; 4; 5]].

Definition example_ebl : obj :=
  fitted_obj example_z (log10 <$> example_lmu)
    (grid_map log10 example_nuInu) (λ x y, x + y).

(** A trapezoidal rule, as an instance of the quadrature interface. *)
Fixpoint trapz (y x : list R) : R :=
  match y, x with
  | y0 :: (y1 :: _) as y', x0 :: (x1 :: _) as x' =>
      (x1 - x0) * (y0 + y1) / 2 + trapz y' x'
  | _, _ => 0
  end.

Definition trapezoid_quadrature : Quadrature := {| simps1 := trapz |}.

(** The SI values of the constants (CODATA 2018). *)
Definition codata : Constants :=
  {| const_h := 6.62607015e-34;
     const_c := 299792458;
     const_e := 1.602176634e-19;
     const_h_pos := ltac:(lra);
     const_c_pos := ltac:(lra);
     const_e_pos := ltac:(lra) |}.

(** A file system on which every file holds the same two-column table. *)
Definition example_files : DataFiles :=
  {| module_dir := "/opt/ebltable";
     loadtxt _ := Ok (VArr2 [[1; 2]; [3; 4]]) |}.

(** * Properties *)

(** ** Index assignment and index selection *)

Section Scatter.
Context {A : Type}.
Implicit Types (base vals l : list A) (idx : list nat).

Lemma scatter_spec base idx vals :
  Forall (λ i, (i < length base)%nat) idx →
  length vals = length idx →
  ∃ r, scatter base idx vals = Ok r
     ∧ length r = length base
     ∧ (∀ i, i ∉ idx → r !! i = base !! i)
     ∧ (NoDup idx → ∀ k i v,
          idx !! k = Some i → vals !! k = Some v → r !! i = Some v).
Proof.
  intros Hin. revert base vals Hin.
  induction idx as [|i idx IH]; intros base vals Hin Hlen.
  - destruct vals; [|done]. exists base. simpl.
    repeat split; done.
  - destruct vals as [|v vals]; [done|]. simpl in Hlen.
    apply Forall_cons in Hin as [Hi Hin]. simpl.
    rewrite decide_True by done.
    destruct (IH (<[i := v]> base) vals) as (r & Hr & Hlr & Hout & Hinl).
    { by rewrite length_insert. }
    { lia. }
    exists r. rewrite length_insert in Hlr.
    split; [done|]. split; [done|]. split.
    + intros j Hj. apply not_elem_of_cons in Hj as [Hji Hj].
      rewrite Hout by done. by rewrite list_lookup_insert_ne.
    + intros Hnd k j w Hk Hw. apply NoDup_cons in Hnd as [Hni Hnd].
      destruct k as [|k]; simpl in Hk, Hw.
      * simplify_eq. rewrite Hout by done.
        by rewrite list_lookup_insert_eq.
      * by eapply Hinl.
Qed.

(** Storing, at the positions of a permutation, the values selected at
    those positions rebuilds the list. *)
Lemma scatter_gather_fmap {B} (f : B → A) (d : B) base (l : list B) idx :
  idx ≡ₚ seq 0 (length l) →
  length base = length l →
  scatter base idx (f <$> gather d l idx) = Ok (f <$> l).
Proof.
  intros Hperm Hlen.
  assert (Hin : Forall (λ i, (i < length base)%nat) idx).
  { rewrite Hperm, Hlen. apply Forall_forall. intros i Hi.
    apply elem_of_seq in Hi. lia. }
  assert (Hnd : NoDup idx) by (rewrite Hperm; apply NoDup_seq).
  destruct (scatter_spec base idx (f <$> gather d l idx) Hin)
    as (r & Hr & Hlr & _ & Hval).
  { unfold gather. by rewrite !length_fmap. }
  rewrite Hr. f_equal. apply list_eq. intros i.
  destruct (decide (i < length l)%nat) as [Hi|Hi].
  - assert (Hie : i ∈ idx).
    { rewrite Hperm. apply elem_of_seq. lia. }
    apply list_elem_of_lookup in Hie as [k Hk].
    destruct (lookup_lt_is_Some_2 l i Hi) as [x Hx].
    rewrite (Hval Hnd k i (f x)); [|done|].
    + by rewrite list_lookup_fmap, Hx.
    + unfold gather. rewrite !list_lookup_fmap, Hk. simpl. by rewrite Hx.
  - rewrite !lookup_ge_None_2; [done| |].
    + rewrite length_fmap. lia.
    + lia.
Qed.
End Scatter.

Lemma scatter_cols_rows {B} (b : list R) (idx : list nat)
    (g h : B → list R) (z : list B) :
  (∀ zi, scatter b idx (g zi) = Ok (h zi)) →
  scatter_cols (replicate (length z) b) idx (g <$> z) = Ok (h <$> z).
Proof.
  intros Hrow. induction z as [|zi z IH]; [done|].
  csimpl. rewrite Hrow. csimpl. rewrite IH. done.
Qed.

Lemma transpose_outer {B C} (f : B → C → R) (xs : list B) (ys : list C) :
  transpose (length ys) ((λ x, f x <$> ys) <$> xs)
  = (λ y, (λ x, f x y) <$> xs) <$> ys.
Proof.
  unfold transpose. apply list_eq. intros b.
  rewrite !list_lookup_fmap.
  destruct (decide (b < length ys)%nat) as [Hb|Hb].
  - rewrite lookup_seq_lt by done. simpl.
    destruct (lookup_lt_is_Some_2 ys b Hb) as [y Hy]. rewrite Hy. simpl.
    f_equal. rewrite <- list_fmap_compose. apply list_fmap_ext.
    intros _ x _. simpl. by rewrite list_lookup_fmap, Hy.
  - rewrite lookup_seq_ge by lia. by rewrite lookup_ge_None_2 by lia.
Qed.

(** ** Logarithms and powers of ten *)

Lemma ln10_pos : 0 < ln 10.
Proof. rewrite <- ln_1. apply ln_increasing; lra. Qed.

Lemma pow10_pos x : 0 < pow10 x.
Proof. apply exp_pos. Qed.

Lemma log10_pow10 x : log10 (pow10 x) = x.
Proof.
  unfold log10, pow10. rewrite ln_exp. field.
  pose proof ln10_pos. lra.
Qed.

Lemma pow10_log10 x : 0 < x → pow10 (log10 x) = x.
Proof.
  intros Hx. unfold log10, pow10.
  replace (ln x / ln 10 * ln 10) with (ln x).
  - by apply exp_ln.
  - field. pose proof ln10_pos. lra.
Qed.

Lemma log10_le a b : 0 < a → a <= b → log10 a <= log10 b.
Proof.
  intros Ha Hab. unfold log10.
  apply Rmult_le_compat_r.
  - left. apply Rinv_0_lt_compat, ln10_pos.
  - destruct Hab as [Hlt| ->]; [left; by apply ln_increasing | right; done].
Qed.

(** On positive numbers the decimal logarithm is below the identity. *)
Lemma log10_lt_self x : 0 < x → log10 x < x.
Proof.
  intros Hx. unfold log10.
  assert (H10 : 1 < ln 10).
  { rewrite <- (ln_exp 1). apply ln_increasing; [apply exp_pos|].
    pose proof exp_le_3. lra. }
  assert (Hln : ln x < x).
  { rewrite <- (ln_exp x) at 2. apply ln_increasing; [done|].
    assert (Hx0 : x <> 0) by lra.
    pose proof (exp_ineq1 x Hx0). lra. }
  destruct (Rle_dec (ln x) 0) as [Hneg|Hpos].
  - apply Rle_lt_trans with 0; [|done].
    assert (Hinv : 0 < / ln 10) by (apply Rinv_0_lt_compat; lra).
    unfold Rdiv. nra.
  - apply Rlt_trans with (ln x); [|done].
    apply Rnot_le_lt in Hpos.
    apply (Rmult_lt_reg_r (ln 10)); [lra|].
    replace (ln x / ln 10 * ln 10) with (ln x) by (field; lra).
    nra.
Qed.

Lemma Sorted_log10 (l : list R) :
  Sorted Rle l → Forall (λ x, 0 < x) l → Sorted Rle (log10 <$> l).
Proof.
  induction 1 as [|x l Hs IH Hhd]; intros Hpos; [constructor|].
  apply Forall_cons in Hpos as [Hx Hpos]. csimpl. constructor; [by apply IH|].
  destruct Hhd as [|y l Hxy]; csimpl; constructor.
  by apply log10_le.
Qed.

(** ** numpy's sort *)

Section SortFacts.
Context `{NumpySort}.

Lemma np_argsort_lt (l : list R) :
  Forall (λ i, (i < length l)%nat) (np_argsort l).
Proof.
  rewrite np_argsort_perm. apply Forall_forall. intros i Hi.
  apply elem_of_seq in Hi. lia.
Qed.

Lemma np_sort_Forall (P : R → Prop) (l : list R) :
  Forall P l → Forall P (np_sort l).
Proof.
  intros HP. rewrite np_sort_argsort. unfold gather.
  apply Forall_fmap. eapply Forall_impl; [apply np_argsort_lt|].
  intros i Hi. simpl.
  destruct (lookup_lt_is_Some_2 l i Hi) as [x Hx]. rewrite Hx. simpl.
  eapply Forall_lookup_1; eauto.
Qed.

Lemma np_sort_length (l : list R) : length (np_sort l) = length l.
Proof.
  rewrite np_sort_argsort. unfold gather.
  by rewrite length_fmap, np_argsort_perm, length_seq.
Qed.
End SortFacts.

(** ** The intensity query *)

Section Query.
Context `{NumpySort}.

Lemma sorted_eval_ok s (z lmu : list R) :
  Forall (λ l, 0 < l) lmu →
  sorted_eval s z lmu (length lmu) = Ok (ebl_grid s z lmu).
Proof.
  intros Hpos. unfold sorted_eval, spline_call, non_decreasing.
  rewrite !bool_decide_eq_true_2.
  2:{ apply np_sort_sorted. }
  2:{ apply Sorted_log10; [apply np_sort_sorted | by apply np_sort_Forall]. }
  csimpl.
  assert (Ht : transpose (length z)
            ((λ xa, (λ yb, s xa yb) <$> np_sort z) <$>
             (log10 <$> np_sort lmu))
          = (λ zi, (λ l, s (log10 l) zi) <$> gather 0 lmu (np_argsort lmu))
            <$> gather 0 z (np_argsort z)).
  { rewrite <- (np_sort_length z).
    rewrite (transpose_outer (λ xa yb, s xa yb)).
    rewrite <- !np_sort_argsort. apply list_fmap_ext. intros _ zi _.
    by rewrite <- list_fmap_compose. }
  rewrite Ht. clear Ht. unfold zeros.
  rewrite scatter_gather_fmap;
    [|apply np_argsort_perm | by rewrite length_replicate].
  csimpl.
  rewrite (scatter_cols_rows _ _ _ (λ zi, (λ l, s (log10 l) zi) <$> lmu)).
  - csimpl. f_equal. unfold grid_map, ebl_grid.
    rewrite <- list_fmap_compose. apply list_fmap_ext. intros _ zi _.
    simpl. by rewrite <- list_fmap_compose.
  - intros zi. apply scatter_gather_fmap;
      [apply np_argsort_perm | by rewrite length_replicate].
Qed.

Lemma ebl_array_eval (self : obj) (z lmu : pyarg) z0 ztab s :
  self !! "_z" = Some (AArr1 (z0 :: ztab)) →
  self !! "_EBL__eblSpline" = Some (ASpline s) →
  (∀ l, lmu ≠ PList l) →
  Forall (λ l, 0 < l) (contents lmu) →
  ebl_array z lmu self
  = (self, below_warning z0 (contents z),
     Ok (ebl_grid s (contents z) (contents lmu))).
Proof.
  intros Hz Hs Hnl Hpos.
  unfold ebl_array, mbind, Py_bind, getattr. rewrite Hz. simpl.
  change (match z with PScalar x => [x] | PList l => l | PArray a => a end)
    with (contents z).
  unfold below_warning.
  assert (Hsh : ∃ lmu', (match lmu with
                         | PScalar x => PArray [x]
                         | PList l => PList l
                         | PArray a => PArray a
                         end) = PArray lmu' ∧ contents lmu = lmu').
  { destruct lmu as [x|l|a]; [by eexists| by destruct (Hnl l) | by eexists]. }
  destruct Hsh as (lmu' & -> & Hc). rewrite Hc in *. simpl.
  destruct (bool_decide _); simpl; rewrite Hs; simpl;
    rewrite sorted_eval_ok by done; done.
Qed.
End Query.

(** ** Construction *)

Section Construction.
Context `{Fitpack}.

Lemma EBL_new_inv z lmu nuInu kx ky self :
  EBL_new z lmu nuInu kx ky = Ok self →
  ∃ s, RBSpline (log10 <$> lmu) z (grid_map log10 nuInu) kx ky = Ok s
     ∧ self = fitted_obj z (log10 <$> lmu) (grid_map log10 nuInu) s.
Proof.
  unfold EBL_new, EBL_init, refit, mbind, Py_bind, setattr, getattr, lift.
  simpl.
  repeat (rewrite ?lookup_insert_eq, ?lookup_insert_ne by done; simpl).
  destruct (RBSpline _ _ _ _ _) as [s|e] eqn:Hfit; simpl; [|done].
  intros [= <-]. by exists s.
Qed.

Lemma EBL_new_complete z lmu nuInu kx ky s :
  RBSpline (log10 <$> lmu) z (grid_map log10 nuInu) kx ky = Ok s →
  EBL_new z lmu nuInu kx ky
  = Ok (fitted_obj z (log10 <$> lmu) (grid_map log10 nuInu) s).
Proof.
  intros Hfit.
  unfold EBL_new, EBL_init, refit, mbind, Py_bind, setattr, getattr, lift.
  simpl.
  repeat (rewrite ?lookup_insert_eq, ?lookup_insert_ne by done; simpl).
  by rewrite Hfit.
Qed.

(** A fit only succeeds on a non-empty, strictly increasing redshift
    axis. *)
Lemma RBSpline_axes x y g kx ky s :
  RBSpline x y g kx ky = Ok s →
  Sorted Rlt x ∧ Sorted Rlt y ∧ x ≠ [] ∧ y ≠ []
  ∧ length x = length g ∧ Forall (λ row, length row = length y) g.
Proof.
  unfold RBSpline, strictly_increasing.
  repeat case_bool_decide; simpl; try done.
  intros _. repeat split; try done; intros ->; tauto.
Qed.

Lemma fitted_lookup_z z loglmu g s :
  fitted_obj z loglmu g s !! "_z" = Some (AArr1 z).
Proof.
  unfold fitted_obj.
  by rewrite !lookup_insert_ne by done; rewrite lookup_insert_eq.
Qed.

Lemma fitted_lookup_loglmu z loglmu g s :
  fitted_obj z loglmu g s !! "_loglmu" = Some (AArr1 loglmu).
Proof.
  unfold fitted_obj.
  by rewrite !lookup_insert_ne by done; rewrite lookup_insert_eq.
Qed.

Lemma fitted_lookup_nuInu z loglmu g s :
  fitted_obj z loglmu g s !! "_nuInu" = Some (AArr2 g).
Proof.
  unfold fitted_obj.
  by rewrite !lookup_insert_ne by done; rewrite lookup_insert_eq.
Qed.

Lemma fitted_lookup_spline z loglmu g s :
  fitted_obj z loglmu g s !! "_EBL__eblSpline" = Some (ASpline s).
Proof. unfold fitted_obj. by rewrite lookup_insert_eq. Qed.

Lemma fitted_lookup_loglnu z loglmu g s :
  fitted_obj z loglmu g s !! "_loglnu" = None.
Proof.
  unfold fitted_obj. by rewrite !lookup_insert_ne by done.
Qed.
End Construction.

(** ** The merge sort satisfies the contract of numpy's sorting routines *)

Lemma sorted_pairs_lookup (l : list R) :
  Forall (λ p, l !! p.2 = Some p.1) (sorted_pairs l).
Proof.
  unfold sorted_pairs. rewrite merge_sort_Permutation.
  apply Forall_forall. intros [v i] Hin.
  apply list_elem_of_lookup in Hin as [k Hk].
  apply lookup_zip_with_Some in Hk as (x & j & Heq & Hx & Hj).
  simplify_eq. apply lookup_seq in Hj as [-> _]. done.
Qed.

Lemma merge_sort_argsort_perm (l : list R) :
  (sorted_pairs l).*2 ≡ₚ seq 0 (length l).
Proof.
  unfold sorted_pairs. rewrite merge_sort_Permutation.
  rewrite snd_zip; [done|]. by rewrite length_seq.
Qed.

Lemma merge_sort_sort_argsort (l : list R) :
  (sorted_pairs l).*1 = gather 0 l ((sorted_pairs l).*2).
Proof.
  unfold gather. rewrite <- list_fmap_compose.
  apply Forall_fmap_ext_1. eapply Forall_impl; [apply sorted_pairs_lookup|].
  intros [v i] Hp. simpl in *. by rewrite Hp.
Qed.

Lemma merge_sort_sorted (l : list R) : Sorted Rle ((sorted_pairs l).*1).
Proof.
  apply (Sorted_fmap _ pair_le); [done|]. apply Sorted_merge_sort, _.
Qed.

Definition merge_sort_numpy : NumpySort :=
  {| np_sort l := (sorted_pairs l).*1;
     np_argsort l := (sorted_pairs l).*2;
     np_argsort_perm := merge_sort_argsort_perm;
     np_sort_argsort := merge_sort_sort_argsort;
     np_sort_sorted := merge_sort_sorted |}.

(** ** The intensity query on a fitted interpolator *)


Lemma ebl_grid_at s (z lmu : list R) i j zi l :
  z !! i = Some zi → lmu !! j = Some l →
  grid_at (ebl_grid s z lmu) i j = Some (pow10 (s (log10 l) zi)).
Proof.
  intros Hi Hj. unfold grid_at, ebl_grid.
  rewrite list_lookup_fmap, Hi. simpl. by rewrite list_lookup_fmap, Hj.
Qed.

Lemma gather_lookup {A} (d : A) (l : list A) (idx : list nat) k i x :
  idx !! k = Some i → l !! i = Some x → gather d l idx !! k = Some x.
Proof.
  intros Hk Hi. unfold gather. rewrite list_lookup_fmap, Hk. simpl.
  by rewrite Hi.
Qed.

Lemma gather_Forall {A} (P : A → Prop) (d : A) (l : list A) idx :
  Forall P l → Forall (λ i, (i < length l)%nat) idx →
  Forall P (gather d l idx).
Proof.
  intros HP Hidx. unfold gather. apply Forall_fmap.
  eapply Forall_impl; [exact Hidx|]. intros i Hi. simpl.
  destruct (lookup_lt_is_Some_2 l i Hi) as [x Hx]. rewrite Hx. simpl.
  eapply Forall_lookup_1; eauto.
Qed.

Lemma perm_seq_lt (idx : list nat) n :
  idx ≡ₚ seq 0 n → Forall (λ i, (i < n)%nat) idx.
Proof.
  intros ->. apply Forall_forall. intros i Hi.
  apply elem_of_seq in Hi. lia.
Qed.

Section Fitted.
Context `{NumpySort, Fitpack}.

(** What a successful construction guarantees about the instance. *)
Lemma fitted_state ztab lmutab nuInu kx ky self :
  EBL_new ztab lmutab nuInu kx ky = Ok self →
  ∃ z0 zrest s,
    ztab = z0 :: zrest
    ∧ Sorted Rlt ztab
    ∧ self !! "_z" = Some (AArr1 ztab)
    ∧ self !! "_loglmu" = Some (AArr1 (log10 <$> lmutab))
    ∧ self !! "_nuInu" = Some (AArr2 (grid_map log10 nuInu))
    ∧ self !! "_EBL__eblSpline" = Some (ASpline s)
    ∧ self !! "_loglnu" = None.
Proof.
  intros Hnew. apply EBL_new_inv in Hnew as (s & Hfit & ->).
  apply RBSpline_axes in Hfit as (_ & Hz & _ & Hne & _).
  destruct ztab as [|z0 zrest]; [done|].
  exists z0, zrest, s.
  rewrite fitted_lookup_z, fitted_lookup_loglmu, fitted_lookup_nuInu,
    fitted_lookup_spline, fitted_lookup_loglnu. done.
Qed.

(** With the wavelengths in a Python list, line 318 raises after the
    redshift check of line 314. *)
Lemma ebl_array_list_eval (self : obj) (z : pyarg) (l : list R) z0 ztab :
  self !! "_z" = Some (AArr1 (z0 :: ztab)) →
  ebl_array z (PList l) self
  = (self, below_warning z0 (contents z), Raise (AttributeError "shape")).
Proof.
  intros Hz. unfold ebl_array, mbind, Py_bind, getattr. rewrite Hz. simpl.
  change (match z with PScalar x => [x] | PList l => l | PArray a => a end)
    with (contents z).
  unfold below_warning. by destruct (bool_decide _).
Qed.

(** C1.  Permutation invariance of the intensity query: on a fitted
    interpolator, for arrays [z] and [lmu] of positive wavelengths and
    permutations [q] and [p] of their indices, both calls return, and
    entry [i, j] of the grid for the permuted arrays is entry
    [q(i), p(j)] of the grid for [z] and [lmu]. *)
Theorem ebl_array_permutation_invariance
    ztab lmutab nuInu kx ky self (z lmu : list R) (q p : list nat) :
  EBL_new ztab lmutab nuInu kx ky = Ok self →
  Forall (λ l, 0 < l) lmu →
  q ≡ₚ seq 0 (length z) →
  p ≡ₚ seq 0 (length lmu) →
  ∃ G G',
    (ebl_array (PArray z) (PArray lmu) self).2 = Ok G
    ∧ (ebl_array (PArray (gather 0 z q)) (PArray (gather 0 lmu p)) self).2
      = Ok G'
    ∧ ∀ i j qi pj, q !! i = Some qi → p !! j = Some pj →
        ∃ v, grid_at G' i j = Some v ∧ grid_at G qi pj = Some v.
Proof.
  intros Hnew Hpos Hq Hp.
  destruct (fitted_state _ _ _ _ _ _ Hnew)
    as (z0 & zrest & s & -> & _ & Hz & _ & _ & Hs & _).
  pose proof (perm_seq_lt _ _ Hq) as Hqlt.
  pose proof (perm_seq_lt _ _ Hp) as Hplt.
  exists (ebl_grid s z lmu), (ebl_grid s (gather 0 z q) (gather 0 lmu p)).
  split; [|split].
  - by erewrite ebl_array_eval.
  - erewrite ebl_array_eval; eauto. simpl. by apply gather_Forall.
  - intros i j qi pj Hi Hj.
    assert (Hqi : (qi < length z)%nat).
    { eapply Forall_lookup_1 in Hqlt; eauto. }
    assert (Hpj : (pj < length lmu)%nat).
    { eapply Forall_lookup_1 in Hplt; eauto. }
    destruct (lookup_lt_is_Some_2 z qi Hqi) as [zq Hzq].
    destruct (lookup_lt_is_Some_2 lmu pj Hpj) as [lp Hlp].
    exists (pow10 (s (log10 lp) zq)). split.
    + apply ebl_grid_at; by eapply gather_lookup.
    + by apply ebl_grid_at.
Qed.
End Fitted.

Lemma log10_lt a b : 0 < a → a < b → log10 a < log10 b.
Proof.
  intros Ha Hab. unfold log10. apply Rmult_lt_compat_r.
  - apply Rinv_0_lt_compat, ln10_pos.
  - by apply ln_increasing.
Qed.

Lemma example_ebl_new :
  @EBL_new affine_fit example_z example_lmu example_nuInu 2 2
  = Ok example_ebl.
Proof.
  apply @EBL_new_complete. unfold RBSpline, strictly_increasing.
  rewrite (bool_decide_eq_true_2 (Sorted Rlt (log10 <$> example_lmu))).
  2:{ unfold example_lmu. csimpl.
      repeat constructor; apply log10_lt; lra. }
  rewrite (bool_decide_eq_true_2 (Sorted Rlt example_z)).
  2:{ unfold example_z. repeat constructor; lra. }
  done.
Qed.

Lemma ebl_array_permutation_invariance_witness :
  ∃ G G',
    (@ebl_array merge_sort_numpy (PArray [2; 1 / 2]) (PArray [3; 1; 2])
       example_ebl).2 = Ok G
    ∧ (@ebl_array merge_sort_numpy
         (PArray (gather 0 [2; 1 / 2] [1; 0]%nat))
         (PArray (gather 0 [3; 1; 2] [2; 0; 1]%nat)) example_ebl).2 = Ok G'
    ∧ ∀ i j qi pj,
        [1; 0]%nat !! i = Some qi → [2; 0; 1]%nat !! j = Some pj →
        ∃ v, grid_at G' i j = Some v ∧ grid_at G qi pj = Some v.
Proof.
  apply (@ebl_array_permutation_invariance merge_sort_numpy affine_fit
           example_z example_lmu example_nuInu 2%nat 2%nat).
  - exact example_ebl_new.
  - repeat constructor; lra.
  - simpl. apply perm_swap.
  - simpl. change [2; 0; 1]%nat with ([2]%nat ++ [0; 1]%nat).
    rewrite (comm (++)). done.
Defined.

Section IntensityQuery.
Context `{NumpySort, Fitpack}.


(** The warnings and the state after [ebl_array] are decided by line 314,
    whatever happens afterwards. *)
Lemma ebl_array_effects (self : obj) (z lmu : pyarg) z0 ztab :
  self !! "_z" = Some (AArr1 (z0 :: ztab)) →
  (ebl_array z lmu self).1 = (self, below_warning z0 (contents z)).
Proof.
  intros Hz. unfold ebl_array, mbind, Py_bind, getattr, lift, warn.
  rewrite Hz. simpl.
  change (match z with PScalar x => [x] | PList l => l | PArray a => a end)
    with (contents z).
  unfold below_warning.
  destruct (bool_decide _); simpl;
    (destruct (shape0 _); simpl; [|done]);
    (destruct (self !! "_EBL__eblSpline"); simpl; done).
Qed.


End IntensityQuery.

Section Arguments.
Context `{NumpySort, Fitpack}.

(** C7.  Input promotion: a scalar is promoted to an array of length one
    and a list of redshifts is read as an array, but a Python list of
    wavelengths is never converted (line 308 assigns the array to [ETeV]),
    so on every fitted interpolator the call raises [AttributeError] at
    [lmu.shape] where the same wavelengths as an array give a grid. *)
Theorem ebl_array_list_wavelengths_raise
    ztab lmutab nuInu kx ky self (z : pyarg) (l : list R) :
  EBL_new ztab lmutab nuInu kx ky = Ok self →
  (ebl_array z (PList l) self).2 = Raise (AttributeError "shape")
  ∧ (Forall (λ x, 0 < x) l →
       ∃ G, (ebl_array z (PArray l) self).2 = Ok G)
  ∧ (∀ zl lmu, ebl_array (PList zl) lmu self = ebl_array (PArray zl) lmu self)
  ∧ (∀ x lmu, ebl_array (PScalar x) lmu self = ebl_array (PArray [x]) lmu self)
  ∧ (∀ x, ebl_array z (PScalar x) self = ebl_array z (PArray [x]) self).
Proof.
  intros Hnew.
  destruct (fitted_state _ _ _ _ _ _ Hnew)
    as (z0 & zrest & s & -> & _ & Hz & _ & _ & Hs & _).
  split; [by erewrite ebl_array_list_eval|].
  split; [|done].
  intros Hpos. eexists. by erewrite ebl_array_eval.
Qed.
End Arguments.

Lemma ebl_array_list_wavelengths_raise_witness :
  (@ebl_array merge_sort_numpy (PArray [1 / 2]) (PList [1]) example_ebl).2
  = Raise (AttributeError "shape")
  ∧ (Forall (λ x, 0 < x) [1] →
       ∃ G, (@ebl_array merge_sort_numpy (PArray [1 / 2]) (PArray [1])
               example_ebl).2 = Ok G)
  ∧ (∀ zl lmu, @ebl_array merge_sort_numpy (PList zl) lmu example_ebl
               = @ebl_array merge_sort_numpy (PArray zl) lmu example_ebl)
  ∧ (∀ x lmu, @ebl_array merge_sort_numpy (PScalar x) lmu example_ebl
              = @ebl_array merge_sort_numpy (PArray [x]) lmu example_ebl)
  ∧ (∀ x, @ebl_array merge_sort_numpy (PArray [1 / 2]) (PScalar x) example_ebl
          = @ebl_array merge_sort_numpy (PArray [1 / 2]) (PArray [x])
              example_ebl).
Proof.
  apply (@ebl_array_list_wavelengths_raise merge_sort_numpy affine_fit
           example_z example_lmu example_nuInu 2%nat 2%nat).
  exact example_ebl_new.
Defined.



(** ** Accessors *)

Lemma fmap_fixed {A} (f : A → A) (l : list A) :
  f <$> l = l → Forall (λ v, f v = v) l.
Proof.
  induction l as [|v l IH]; csimpl; intros Heq; [constructor|].
  injection Heq as Hv Hl. constructor; [done|by apply IH].
Qed.

Section Accessors.
Context `{Fitpack}.

(** The refit of the three setters reads the attribute [_loglnu], which no
    instance has. *)
Lemma refit_loglnu_raises (self : obj) kx ky :
  self !! "_loglnu" = None →
  refit "_loglnu" kx ky self = (self, [], Raise (AttributeError "_loglnu")).
Proof.
  intros Hno. unfold refit, mbind, Py_bind, getattr. by rewrite Hno.
Qed.

(** C5.  Rebuild on mutation: on a fitted interpolator each of the three
    setters stores its argument and then raises [AttributeError] on
    [self._loglnu]; it does not return normally and the spline is the one
    fitted before the assignment. *)
Theorem setters_raise_before_refit
    ztab lmutab nuInu kx ky self (z : list R) (lmu : list R) (g : grid)
    kx' ky' :
  EBL_new ztab lmutab nuInu kx ky = Ok self →
  ∃ s,
    self !! "_EBL__eblSpline" = Some (ASpline s)
    ∧ z_setter z kx' ky' self
      = (<["_z" := AArr1 z]> self, [], Raise (AttributeError "_loglnu"))
    ∧ loglmu_setter lmu kx' ky' self
      = (<["_loglmu" := AArr1 (log10 <$> lmu)]> self, [],
         Raise (AttributeError "_loglnu"))
    ∧ nuInu_setter g kx' ky' self
      = (<["_nuInu" := AArr2 (grid_map log10 g)]> self, [],
         Raise (AttributeError "_loglnu"))
    ∧ (<["_z" := AArr1 z]> self) !! "_EBL__eblSpline" = Some (ASpline s)
    ∧ (<["_loglmu" := AArr1 (log10 <$> lmu)]> self) !! "_EBL__eblSpline"
      = Some (ASpline s)
    ∧ (<["_nuInu" := AArr2 (grid_map log10 g)]> self) !! "_EBL__eblSpline"
      = Some (ASpline s).
Proof.
  intros Hnew.
  destruct (fitted_state _ _ _ _ _ _ Hnew)
    as (z0 & zrest & s & -> & _ & _ & _ & _ & Hs & Hno).
  exists s. split; [done|].
  unfold z_setter, loglmu_setter, nuInu_setter, mbind, Py_bind, setattr.
  rewrite !refit_loglnu_raises by (by rewrite lookup_insert_ne).
  rewrite !lookup_insert_ne by done. done.
Qed.

(** C10.  The accessors expose the logarithmic storage: after
    [EBL(z, lmu, nuInu)] the property [nuInu] is the decimal logarithm of
    the grid passed in and [loglmu] the decimal logarithm of the
    wavelengths; after assigning a grid [x] through the [nuInu] setter
    (which stores before it raises) the property reads the decimal
    logarithm of [x], and that differs from [x] whenever [x] is a grid of
    positive numbers with at least one entry. *)
Theorem accessors_expose_log_storage z lmu nuInu kx ky self :
  EBL_new z lmu nuInu kx ky = Ok self →
  nuInu_getter self = (self, [], Ok (AArr2 (grid_map log10 nuInu)))
  ∧ loglmu_getter self = (self, [], Ok (AArr1 (log10 <$> lmu)))
  ∧ (∀ x kx' ky',
       (nuInu_getter (nuInu_setter x kx' ky' self).1.1).2
       = Ok (AArr2 (grid_map log10 x)))
  ∧ (∀ x : grid,
       Forall (Forall (λ v, 0 < v)) x →
       (∃ row v, row ∈ x ∧ v ∈ row) →
       grid_map log10 x ≠ x).
Proof.
  intros Hnew.
  destruct (fitted_state _ _ _ _ _ _ Hnew)
    as (z0 & zrest & s & -> & _ & _ & Hl & Hn & Hs & Hno).
  unfold nuInu_getter, loglmu_getter, getattr. rewrite Hl, Hn.
  split; [done|]. split; [done|]. split.
  - intros x kx' ky'.
    unfold nuInu_setter, mbind, Py_bind, setattr.
    rewrite refit_loglnu_raises by (by rewrite lookup_insert_ne).
    simpl. by rewrite lookup_insert_eq.
  - intros x Hpos (row & v & Hrow & Hv) Heq.
    apply fmap_fixed in Heq.
    eapply Forall_forall in Heq; [|exact Hrow].
    eapply Forall_forall in Hpos; [|exact Hrow].
    apply fmap_fixed in Heq.
    eapply Forall_forall in Heq; [|exact Hv].
    eapply Forall_forall in Hpos; [|exact Hv].
    pose proof (log10_lt_self v Hpos). lra.
Qed.
End Accessors.

Lemma setters_raise_before_refit_witness :
  ∃ s,
    example_ebl !! "_EBL__eblSpline" = Some (ASpline s)
    ∧ @z_setter affine_fit [0; 3; 5] 2 2 example_ebl
      = (<["_z" := AArr1 [0; 3; 5]]> example_ebl, [],
         Raise (AttributeError "_loglnu"))
    ∧ @loglmu_setter affine_fit [1; 10; 1000] 2 2 example_ebl
      = (<["_loglmu" := AArr1 (log10 <$> [1; 10; 1000])]> example_ebl, [],
         Raise (AttributeError "_loglnu"))
    ∧ @nuInu_setter affine_fit example_nuInu 2 2 example_ebl
      = (<["_nuInu" := AArr2 (grid_map log10 example_nuInu)]> example_ebl, [],
         Raise (AttributeError "_loglnu"))
    ∧ (<["_z" := AArr1 [0; 3; 5]]> example_ebl) !! "_EBL__eblSpline"
      = Some (ASpline s)
    ∧ (<["_loglmu" := AArr1 (log10 <$> [1; 10; 1000])]> example_ebl)
        !! "_EBL__eblSpline" = Some (ASpline s)
    ∧ (<["_nuInu" := AArr2 (grid_map log10 example_nuInu)]> example_ebl)
        !! "_EBL__eblSpline" = Some (ASpline s).
Proof.
  exact (@setters_raise_before_refit affine_fit
           example_z example_lmu example_nuInu 2%nat 2%nat example_ebl
           [0; 3; 5] [1; 10; 1000] example_nuInu 2%nat 2%nat
           example_ebl_new).
Defined.

Lemma accessors_expose_log_storage_witness :
  nuInu_getter example_ebl
  = (example_ebl, [], Ok (AArr2 (grid_map log10 example_nuInu)))
  ∧ loglmu_getter example_ebl
    = (example_ebl, [], Ok (AArr1 (log10 <$> example_lmu)))
  ∧ (∀ x kx' ky',
       (nuInu_getter (@nuInu_setter affine_fit x kx' ky' example_ebl).1.1).2
       = Ok (AArr2 (grid_map log10 x)))
  ∧ (∀ x : grid,
       Forall (Forall (λ v, 0 < v)) x →
       (∃ row v, row ∈ x ∧ v ∈ row) →
       grid_map log10 x ≠ x).
Proof.
  exact (@accessors_expose_log_storage affine_fit
           example_z example_lmu example_nuInu 2%nat 2%nat example_ebl
           example_ebl_new).
Defined.

(** ** The photon-density query *)

Lemma fmap_zip_with_fused {A B C D} (f : C → D) (g : A → B → C)
    (l : list A) (k : list B) :
  f <$> zip_with g l k = zip_with (λ x y, f (g x y)) l k.
Proof.
  revert k. induction l as [|x l IH]; intros [|y k]; csimpl; [done..|].
  by rewrite IH.
Qed.

Lemma zip_with_ext_all {A B C} (f g : A → B → C) (l : list A) (k : list B) :
  (∀ x y, f x y = g x y) → zip_with f l k = zip_with g l k.
Proof.
  intros Hfg. revert k. induction l as [|x l IH]; intros [|y k]; csimpl;
    [done..|]. by rewrite Hfg, IH.
Qed.

Section Density.
Context `{NumpySort, Constants}.

(** C3.  The photon-density query is the composition of the conversion of
    the energies to wavelengths in microns, the intensity query at these
    wavelengths, and the multiplication of every intensity by
    [4 pi / (c E_J^2)] and the three unit factors: [n_array] and that
    composition are the same computation, on every instance and for every
    kind of argument. *)
Theorem n_array_is_density_at (z EeV : pyarg) (self : obj) :
  n_array z EeV self = density_at z EeV self.
Proof.
  unfold n_array, density_at, mbind, Py_bind, mret, Py_ret.
  change ((λ E, const_h * const_c / (E * const_e) * 1e6) <$> contents EeV)
    with (wavelength_um <$> contents EeV).
  destruct (ebl_array _ _ self) as [[self' w] [g|e]]; [|done].
  f_equal. f_equal. unfold grid_map. rewrite <- list_fmap_compose.
  apply list_fmap_ext. intros _ row _. simpl.
  rewrite fmap_zip_with_fused, zip_with_fmap_l.
  apply zip_with_ext_all. intros E v.
  unfold density_factor, energy_J, Rdiv. cbn [pow].
  rewrite !Rinv_mult, Rinv_1. ring.
Qed.
End Density.


Section DensityFitted.
Context `{NumpySort, Fitpack, Constants}.


End DensityFitted.

(** ** The wavelength integral *)

Lemma linspace_length a b n : length (linspace a b n) = n.
Proof.
  destruct n as [|[|n]]; [done..|].
  unfold linspace. rewrite length_app, length_fmap, length_seq. simpl. lia.
Qed.

Lemma log10_1 : log10 1 = 0.
Proof. unfold log10. rewrite ln_1. lra. Qed.

Lemma log10_100 : log10 100 = 2.
Proof.
  unfold log10. replace 100 with (10 * 10) by lra.
  rewrite ln_mult by lra. field. pose proof ln10_pos. lra.
Qed.

Lemma pow10_0 : pow10 0 = 1.
Proof. unfold pow10. rewrite Rmult_0_l. apply exp_0. Qed.

Lemma pow10_1 : pow10 1 = 10.
Proof. unfold pow10. rewrite Rmult_1_l. apply exp_ln. lra. Qed.

(** For [lmin = 1], [lmax = 100] and three steps the intensity is sampled at
    the log-uniform wavelengths 1, 10, 100, while the abscissae are the
    logarithms of the uniform wavelengths 1, 50.5, 100. *)
Lemma ebl_int_grids_1_100_3 :
  ebl_int_wavelengths 1 100 3 = [1; 10; 100]
  ∧ ebl_int_abscissae 1 100 3 = [ln 1; ln (101 / 2); ln 100]
  ∧ [ln 1; ln (101 / 2); ln 100] ≠ ln <$> [1; 10; 100].
Proof.
  split; [|split].
  - unfold ebl_int_wavelengths, linspace. rewrite log10_1, log10_100.
    csimpl.
    replace (0 * ((2 - 0) / (1 + 1)) + 0) with 0 by lra.
    replace (1 * ((2 - 0) / (1 + 1)) + 0) with 1 by lra.
    rewrite <- log10_100 at 1.
    by rewrite pow10_0, pow10_1, pow10_log10 by lra.
  - unfold ebl_int_abscissae, linspace. csimpl.
    repeat f_equal; lra.
  - csimpl. intros [= Heq]. apply ln_inv in Heq; lra.
Qed.

Section Integral.
Context `{NumpySort, Fitpack, Quadrature}.

(** On a fitted interpolator and a scalar redshift, [ebl_int] hands to
    [simps] the one-row array of the samples at [ebl_int_wavelengths]
    together with [ebl_int_abscissae], and returns what [simps] returns for
    a two-dimensional argument: an array with one entry. *)
Lemma ebl_int_eval ztab lmutab nuInu kx ky self (z lmin lmax : R) steps :
  EBL_new ztab lmutab nuInu kx ky = Ok self →
  ∃ s zmin,
    self !! "_EBL__eblSpline" = Some (ASpline s)
    ∧ ebl_int (PScalar z) lmin lmax steps self
      = (self, below_warning zmin [z],
         Ok (VArr1 [simps1
                      ((λ l, ln 10 * pow10 (s (log10 l) z))
                       <$> ebl_int_wavelengths lmin lmax steps)
                      (ebl_int_abscissae lmin lmax steps)])).
Proof.
  intros Hnew.
  destruct (fitted_state _ _ _ _ _ _ Hnew)
    as (z0 & zrest & s & -> & _ & Hz & _ & _ & Hs & _).
  exists s, z0. split; [done|].
  unfold ebl_int, mbind, Py_bind.
  erewrite ebl_array_eval; eauto.
  2:{ simpl. unfold ebl_int_wavelengths. apply Forall_fmap, Forall_forall.
      intros x _. apply pow10_pos. }
  simpl. unfold lift, simps.
  rewrite bool_decide_eq_true_2.
  - by rewrite app_nil_r, <- list_fmap_compose.
  - repeat constructor.
    unfold ebl_int_abscissae, ebl_int_wavelengths.
    by rewrite !length_fmap, !linspace_length.
Qed.

(** C2.  What [ebl_int] integrates: for [lmin = 1], [lmax = 100] and three
    steps, on a fitted interpolator, the value returned is [simps] of the
    samples [ln 10 * nuInu] at the log-uniform wavelengths 1, 10, 100 against
    the abscissae [ln 1], [ln 50.5], [ln 100]; the sample at wavelength 10
    is paired with [ln 50.5], not with the logarithm of the wavelength at
    which it was evaluated. *)
Theorem ebl_int_abscissae_mismatch ztab lmutab nuInu kx ky self (z : R) :
  EBL_new ztab lmutab nuInu kx ky = Ok self →
  ∃ s,
    self !! "_EBL__eblSpline" = Some (ASpline s)
    ∧ (ebl_int (PScalar z) 1 100 3 self).2
      = Ok (VArr1 [simps1
                     ((λ l, ln 10 * pow10 (s (log10 l) z)) <$> [1; 10; 100])
                     [ln 1; ln (101 / 2); ln 100]])
    ∧ [ln 1; ln (101 / 2); ln 100] ≠ ln <$> [1; 10; 100].
Proof.
  intros Hnew.
  destruct (ebl_int_eval _ _ _ _ _ _ z 1 100 3 Hnew) as (s & zmin & Hs & Heval).
  destruct ebl_int_grids_1_100_3 as (Hw & Ha & Hne).
  exists s. rewrite Heval, Hw, Ha. done.
Qed.

(** C8.  The value of the integration routine: on a fitted interpolator,
    for a scalar redshift and positive bounds, [ebl_int] returns, leaves the
    instance as it was, and the value returned is a one-dimensional array
    with a single entry, not a Python float. *)
Theorem ebl_int_returns_array
    ztab lmutab nuInu kx ky self (z lmin lmax : R) steps :
  EBL_new ztab lmutab nuInu kx ky = Ok self →
  0 < lmin → 0 < lmax →
  ∃ v,
    (ebl_int (PScalar z) lmin lmax steps self).2 = Ok (VArr1 [v])
    ∧ (∀ x, (ebl_int (PScalar z) lmin lmax steps self).2 ≠ Ok (VFloat x))
    ∧ (ebl_int (PScalar z) lmin lmax steps self).1.1 = self.
Proof.
  intros Hnew _ _.
  destruct (ebl_int_eval _ _ _ _ _ _ z lmin lmax steps Hnew)
    as (s & zmin & Hs & Heval).
  rewrite Heval. eexists. split; [done|]. split; [|done].
  intros x. simpl. discriminate.
Qed.
End Integral.

Lemma ebl_int_abscissae_mismatch_witness :
  ∃ s,
    example_ebl !! "_EBL__eblSpline" = Some (ASpline s)
    ∧ (@ebl_int merge_sort_numpy trapezoid_quadrature (PScalar 0) 1 100 3
         example_ebl).2
      = Ok (VArr1 [trapz
                     ((λ l, ln 10 * pow10 (s (log10 l) 0)) <$> [1; 10; 100])
                     [ln 1; ln (101 / 2); ln 100]])
    ∧ [ln 1; ln (101 / 2); ln 100] ≠ ln <$> [1; 10; 100].
Proof.
  exact (@ebl_int_abscissae_mismatch merge_sort_numpy affine_fit
           trapezoid_quadrature example_z example_lmu example_nuInu
           2%nat 2%nat example_ebl 0 example_ebl_new).
Defined.

Lemma ebl_int_returns_array_witness :
  ∃ v,
    (@ebl_int merge_sort_numpy trapezoid_quadrature (PScalar 0)
       (1 / 100) 1000 50 example_ebl).2 = Ok (VArr1 [v])
    ∧ (∀ x, (@ebl_int merge_sort_numpy trapezoid_quadrature (PScalar 0)
               (1 / 100) 1000 50 example_ebl).2 ≠ Ok (VFloat x))
    ∧ (@ebl_int merge_sort_numpy trapezoid_quadrature (PScalar 0)
         (1 / 100) 1000 50 example_ebl).1.1 = example_ebl.
Proof.
  apply (@ebl_int_returns_array merge_sort_numpy affine_fit
           trapezoid_quadrature example_z example_lmu example_nuInu
           2%nat 2%nat example_ebl 0 (1 / 100) 1000 50%nat example_ebl_new);
    lra.
Defined.

(** ** The model loader *)

Section LoaderFacts.
Context `{NumpySort, Fitpack, Quadrature, Constants, DataFiles}.

(** After the table is loaded, a model whose name contains [inoue] is
    rejected. *)
Lemma readmodel_inoue_branch (model f : string) :
  model_file model = Ok f →
  (0 <= str_find model "inoue")%Z →
  (∃ e, readmodel model = Raise e)
  ∧ (∀ tbl, loadtxt f = Ok (VArr2 tbl) →
       Forall (λ row : list R, (2 <= length row)%nat) tbl →
       readmodel model = Raise (ValueError inoue_message)).
Proof.
  intros Hf Hfind. unfold readmodel. rewrite Hf. csimpl.
  apply Z.leb_le in Hfind. rewrite Hfind. split.
  - destruct (loadtxt f) as [[x|a|tbl]|e]; csimpl; try by eexists.
    destruct (col 0 tbl); csimpl; [|by eexists].
    destruct (col 1 tbl); csimpl; by eexists.
  - intros tbl -> Hcols. csimpl. unfold col.
    rewrite !bool_decide_eq_true_2; [done| |].
    + eapply Forall_impl; [exact Hcols|]. simpl. lia.
    + eapply Forall_impl; [exact Hcols|]. simpl. lia.
Qed.

(** C9.  Rejections of the loader: the recognized model names that contain
    [inoue] are exactly [inoue], [inoue-low-pop3] and [inoue-up-pop3]; for
    each of them [readmodel] raises and never returns an interpolator, and
    the error is the [ValueError] of line 159 whenever the data file loads
    as a table with at least two columns; for a name that is not recognized
    [readmodel] raises the [ValueError] of line 150, whatever the files
    are. *)
Theorem readmodel_rejections (model : string) :
  (model ∈ recognized_models → (0 <= str_find model "inoue")%Z →
     model ∈ inoue_models
     ∧ (∃ e, readmodel model = Raise e)
     ∧ (∀ f tbl, model_file model = Ok f → loadtxt f = Ok (VArr2 tbl) →
          Forall (λ row : list R, (2 <= length row)%nat) tbl →
          readmodel model = Raise (ValueError inoue_message)))
  ∧ (model ∈ inoue_models →
       model ∈ recognized_models ∧ (0 <= str_find model "inoue")%Z)
  ∧ (model ∉ recognized_models →
       readmodel model = Raise (ValueError "Unknown EBL model chosen!")).
Proof.
  split; [|split].
  - intros Hrec Hfind. unfold recognized_models in Hrec.
    repeat (apply elem_of_cons in Hrec as [->|Hrec]);
      try (by vm_compute in Hfind);
      try (by apply elem_of_nil in Hrec).
    all: split; [unfold inoue_models; set_solver|].
    all: match goal with
         | |- context [readmodel ?m] =>
             destruct (model_file m) as [f|e] eqn:Hf; [|by vm_compute in Hf];
             destruct (readmodel_inoue_branch m f Hf Hfind) as [Hraise Hval]
         end.
    all: split; [done|].
    all: intros f' tbl [= <-]; apply Hval.
  - intros Hin. unfold inoue_models in Hin.
    repeat (apply elem_of_cons in Hin as [->|Hin]);
      try (by apply elem_of_nil in Hin).
    all: split; [unfold recognized_models; set_solver | by vm_compute].
  - intros Hnot. unfold readmodel, model_file.
    repeat match goal with
           | |- context [String.eqb model ?s] =>
               destruct (String.eqb_spec model s) as [->|_];
               [exfalso; apply Hnot; unfold recognized_models; set_solver|]
           end.
    done.
Qed.
End LoaderFacts.

Lemma readmodel_rejections_witness :
  ("inoue"%string ∈ inoue_models
   ∧ (∃ e, @readmodel affine_fit codata example_files "inoue" = Raise e)
   ∧ (∀ f tbl,
        @model_file example_files "inoue" = Ok f →
        @loadtxt example_files f = Ok (VArr2 tbl) →
        Forall (λ row : list R, (2 <= length row)%nat) tbl →
        @readmodel affine_fit codata example_files "inoue"
        = Raise (ValueError inoue_message)))
  ∧ @readmodel affine_fit codata example_files "stecker"
    = Raise (ValueError "Unknown EBL model chosen!").
Proof.
  split.
  - apply (proj1 (@readmodel_rejections affine_fit codata example_files "inoue")).
    + unfold recognized_models. repeat constructor.
    + by vm_compute.
  - apply (proj2 (proj2
             (@readmodel_rejections affine_fit codata example_files "stecker"))).
    unfold recognized_models. intros Hin.
    repeat (apply elem_of_cons in Hin as [Heq|Hin]; [discriminate Heq|]).
    by apply elem_of_nil in Hin.
Defined.

(** ** Concrete runs *)

Example scatter_permutes :
  scatter [0; 0; 0]%nat [2; 0; 1]%nat [7; 8; 9]%nat = Ok [8; 9; 7]%nat.
Proof. reflexivity. Qed.

Example scatter_out_of_range :
  scatter [0; 0]%nat [0; 2]%nat [7; 8]%nat = Raise IndexError.
Proof. reflexivity. Qed.

Example gather_permutes :
  gather 0%nat [8; 9; 7]%nat [2; 0; 1]%nat = [7; 8; 9]%nat.
Proof. reflexivity. Qed.

Example str_find_inoue :
  str_find "inoue-up-pop3" "inoue" = 0%Z
  ∧ str_find "gilmore-fixed" "gilmore" = 0%Z
  ∧ str_find "finke" "inoue" = (-1)%Z
  ∧ str_find "my-inoue" "inoue" = 3%Z.
Proof. repeat split. Qed.

Example path_join_data :
  path_join (path_join "/opt/ebltable" "data/") "CUBA_UVB.dat"
  = "/opt/ebltable/data/CUBA_UVB.dat"%string.
Proof. reflexivity. Qed.

Example model_file_cuba :
  @model_file example_files "cuba" = Ok "/opt/ebltable/data/CUBA_UVB.dat"%string.
Proof. reflexivity. Qed.

(** A query below the table on the small interpolator: one warning, and the
    rows follow the order of the request. *)
Example ebl_array_example :
  @ebl_array merge_sort_numpy (PArray [2; -1]) (PArray [100; 1]) example_ebl
  = (example_ebl, [RuntimeWarning 0],
     Ok [[pow10 (log10 100 + 2); pow10 (log10 1 + 2)];
         [pow10 (log10 100 + -1); pow10 (log10 1 + -1)]]).
Proof.
  erewrite ebl_array_eval.
  - unfold below_warning. rewrite bool_decide_eq_true_2; [done|].
    apply Exists_cons_tl, Exists_cons_hd. lra.
  - apply fitted_lookup_z.
  - apply fitted_lookup_spline.
  - done.
  - repeat constructor; lra.
Qed.

(** * Further properties *)

(** ** What the query reads of the instance *)

Section QueryReads.
Context `{NumpySort}.

(** The query reads the attributes [_z] and [_EBL__eblSpline] and no other:
    the outcome is the same on two instances with the same spline whose
    redshift arrays are not empty, and the warnings are the same when these
    arrays start with the same redshift. *)
Lemma ebl_array_result_agree (self1 self2 : obj) (z lmu : pyarg) a l1 b l2 :
  self1 !! "_z" = Some (AArr1 (a :: l1)) →
  self2 !! "_z" = Some (AArr1 (b :: l2)) →
  self1 !! "_EBL__eblSpline" = self2 !! "_EBL__eblSpline" →
  (ebl_array z lmu self1).2 = (ebl_array z lmu self2).2.
Proof.
  intros Hz1 Hz2 Hs.
  unfold ebl_array, mbind, Py_bind, getattr, lift, warn.
  rewrite Hz1, Hz2. simpl.
  destruct (bool_decide _), (bool_decide _); simpl;
    (destruct (shape0 _); simpl; [|done]);
    rewrite Hs;
    by destruct (self2 !! "_EBL__eblSpline").
Qed.

(** With an empty redshift array stored, line 314 raises on [self._z[0]]. *)
Lemma ebl_array_empty_axis (self : obj) (z lmu : pyarg) :
  self !! "_z" = Some (AArr1 []) →
  ebl_array z lmu self = (self, [], Raise IndexError).
Proof.
  intros Hz. unfold ebl_array, mbind, Py_bind, getattr, lift.
  by rewrite Hz.
Qed.
End QueryReads.

Lemma zip_with_fmap_fmap {A B C D} (f : B → C → D) (g : A → B) (h : A → C)
    (l : list A) :
  zip_with f (g <$> l) (h <$> l) = (λ x, f (g x) (h x)) <$> l.
Proof. induction l as [|x l IH]; csimpl; [done|]. by rewrite IH. Qed.



Section AfterAssignment.
Context `{NumpySort, Fitpack}.

(** X1.  After an assignment to [nuInu] or [loglmu] (which stores the new
    array and raises before the refit) the interpolator answers every query
    as it did before the assignment: same outcome, same warnings. *)
Theorem queries_unchanged_after_grid_assignment
    ztab lmutab nuInu kx ky self (x : grid) (lmu' : list R) kx' ky'
    (z q : pyarg) :
  EBL_new ztab lmutab nuInu kx ky = Ok self →
  (ebl_array z q (nuInu_setter x kx' ky' self).1.1).2
  = (ebl_array z q self).2
  ∧ (ebl_array z q (nuInu_setter x kx' ky' self).1.1).1.2
    = (ebl_array z q self).1.2
  ∧ (ebl_array z q (loglmu_setter lmu' kx' ky' self).1.1).2
    = (ebl_array z q self).2
  ∧ (ebl_array z q (loglmu_setter lmu' kx' ky' self).1.1).1.2
    = (ebl_array z q self).1.2.
Proof.
  intros Hnew.
  destruct (fitted_state _ _ _ _ _ _ Hnew)
    as (z0 & zrest & s & -> & _ & Hz & _ & _ & Hs & Hno).
  unfold nuInu_setter, loglmu_setter, mbind, Py_bind, setattr.
  rewrite !refit_loglnu_raises by (by rewrite lookup_insert_ne).
  simpl.
  rewrite !(ebl_array_effects _ z q z0 zrest)
    by (by rewrite ?lookup_insert_ne).
  repeat split;
    by eapply ebl_array_result_agree; rewrite ?lookup_insert_ne.
Qed.

(** X2.  After an assignment [ebl.z = z'] (which stores [z'] and raises
    before the refit) the grid of every query is the one of the old spline,
    but the below-range warning is judged against the first entry of [z'];
    with an empty [z'] stored every query raises [IndexError]. *)
Theorem z_assignment_moves_warning_threshold
    ztab lmutab nuInu kx ky self (z0' : R) (zrest' : list R) kx' ky'
    (z q : pyarg) :
  EBL_new ztab lmutab nuInu kx ky = Ok self →
  (ebl_array z q (z_setter (z0' :: zrest') kx' ky' self).1.1).1.2
  = below_warning z0' (contents z)
  ∧ (ebl_array z q (z_setter (z0' :: zrest') kx' ky' self).1.1).2
    = (ebl_array z q self).2
  ∧ (ebl_array z q (z_setter [] kx' ky' self).1.1).2 = Raise IndexError.
Proof.
  intros Hnew.
  destruct (fitted_state _ _ _ _ _ _ Hnew)
    as (z0 & zrest & s & -> & _ & Hz & _ & _ & Hs & Hno).
  unfold z_setter, mbind, Py_bind, setattr.
  rewrite !refit_loglnu_raises by (by rewrite lookup_insert_ne).
  simpl. split; [|split].
  - by rewrite (ebl_array_effects _ z q z0' zrest')
      by (by rewrite lookup_insert_eq).
  - eapply ebl_array_result_agree;
      [by rewrite lookup_insert_eq | done | by rewrite lookup_insert_ne].
  - by rewrite ebl_array_empty_axis by (by rewrite lookup_insert_eq).
Qed.


(** X4.  A query with a scalar redshift and a scalar positive wavelength
    returns a two-dimensional array with one row of one entry. *)
Theorem ebl_array_scalar_query
    ztab lmutab nuInu kx ky self (z l : R) :
  EBL_new ztab lmutab nuInu kx ky = Ok self →
  0 < l →
  ∃ s,
    self !! "_EBL__eblSpline" = Some (ASpline s)
    ∧ (ebl_array (PScalar z) (PScalar l) self).2
      = Ok [[pow10 (s (log10 l) z)]].
Proof.
  intros Hnew Hl.
  destruct (fitted_state _ _ _ _ _ _ Hnew)
    as (z0 & zrest & s & -> & _ & Hz & _ & _ & Hs & _).
  exists s. split; [done|].
  erewrite ebl_array_eval; eauto. simpl. by constructor.
Qed.

(** X5.  The query is entry-wise: the grid for the concatenation of two
    redshift arrays is the grid of the first followed by the grid of the
    second, and for the concatenation of two wavelength arrays every row is
    the row for the first followed by the row for the second. *)
Theorem ebl_array_concatenation
    ztab lmutab nuInu kx ky self (z1 z2 l1 l2 : list R) :
  EBL_new ztab lmutab nuInu kx ky = Ok self →
  Forall (λ l, 0 < l) l1 →
  Forall (λ l, 0 < l) l2 →
  ∃ G11 G21 G12,
    (ebl_array (PArray z1) (PArray l1) self).2 = Ok G11
    ∧ (ebl_array (PArray z2) (PArray l1) self).2 = Ok G21
    ∧ (ebl_array (PArray z1) (PArray l2) self).2 = Ok G12
    ∧ (ebl_array (PArray (z1 ++ z2)) (PArray l1) self).2 = Ok (G11 ++ G21)
    ∧ (ebl_array (PArray z1) (PArray (l1 ++ l2)) self).2
      = Ok (zip_with app G11 G12).
Proof.
  intros Hnew H1 H2.
  destruct (fitted_state _ _ _ _ _ _ Hnew)
    as (z0 & zrest & s & -> & _ & Hz & _ & _ & Hs & _).
  exists (ebl_grid s z1 l1), (ebl_grid s z2 l1), (ebl_grid s z1 l2).
  repeat split; try (by erewrite ebl_array_eval).
  - erewrite ebl_array_eval; eauto. simpl. unfold ebl_grid.
    by rewrite fmap_app.
  - erewrite ebl_array_eval; eauto; [|by apply Forall_app]. simpl.
    unfold ebl_grid. rewrite zip_with_fmap_fmap. f_equal.
    apply list_fmap_ext. intros _ zi _. by rewrite fmap_app.
Qed.
End AfterAssignment.

(** ** The photon-density query on a fitted interpolator *)

Section DensityFacts.
Context `{NumpySort, Fitpack, Constants}.



End DensityFacts.

(** ** The wavelength integral on a fitted interpolator *)

Section IntegralFacts.
Context `{NumpySort, Fitpack, Quadrature}.

(** For every kind of redshift argument [ebl_int] returns one integral per
    redshift. *)
Lemma ebl_int_eval_any ztab lmutab nuInu kx ky self (z : pyarg)
    (lmin lmax : R) steps :
  EBL_new ztab lmutab nuInu kx ky = Ok self →
  ∃ s,
    self !! "_EBL__eblSpline" = Some (ASpline s)
    ∧ (ebl_int z lmin lmax steps self).2
      = Ok (VArr1 ((λ zi, simps1
                      ((λ l, ln 10 * pow10 (s (log10 l) zi))
                       <$> ebl_int_wavelengths lmin lmax steps)
                      (ebl_int_abscissae lmin lmax steps))
                   <$> contents z)).
Proof.
  intros Hnew.
  destruct (fitted_state _ _ _ _ _ _ Hnew)
    as (z0 & zrest & s & -> & _ & Hz & _ & _ & Hs & _).
  exists s. split; [done|].
  unfold ebl_int, mbind, Py_bind.
  erewrite ebl_array_eval; eauto.
  2:{ simpl. unfold ebl_int_wavelengths. apply Forall_fmap, Forall_forall.
      intros x _. apply pow10_pos. }
  simpl. unfold lift, simps.
  rewrite bool_decide_eq_true_2.
  - simpl. do 2 f_equal. unfold grid_map, ebl_grid.
    rewrite <- !list_fmap_compose. apply list_fmap_ext. intros _ zi _.
    simpl. by rewrite <- list_fmap_compose.
  - unfold grid_map, ebl_grid. apply Forall_fmap, Forall_fmap, Forall_forall.
    intros zi _. simpl.
    unfold ebl_int_abscissae, ebl_int_wavelengths.
    by rewrite !length_fmap, !linspace_length.
Qed.

(** X8.  The integration routine is vectorised over the redshift: for an
    array of redshifts it returns an array of the same length whose i-th
    entry is the single entry returned for the i-th redshift as a scalar. *)
Theorem ebl_int_vectorised
    ztab lmutab nuInu kx ky self (zs : list R) (lmin lmax : R) steps :
  EBL_new ztab lmutab nuInu kx ky = Ok self →
  ∃ a,
    (ebl_int (PArray zs) lmin lmax steps self).2 = Ok (VArr1 a)
    ∧ length a = length zs
    ∧ ∀ i zi, zs !! i = Some zi →
        ∃ v, a !! i = Some v
           ∧ (ebl_int (PScalar zi) lmin lmax steps self).2 = Ok (VArr1 [v]).
Proof.
  intros Hnew.
  destruct (ebl_int_eval_any _ _ _ _ _ _ (PArray zs) lmin lmax steps Hnew)
    as (s & Hs & Harr).
  eexists. split; [exact Harr|]. split; [by rewrite length_fmap|].
  intros i zi Hi.
  destruct (ebl_int_eval_any _ _ _ _ _ _ (PScalar zi) lmin lmax steps Hnew)
    as (s' & Hs' & Hsc).
  rewrite Hs in Hs'. injection Hs' as <-.
  eexists. split; [|exact Hsc].
  simpl. by rewrite list_lookup_fmap, Hi.
Qed.
End IntegralFacts.



(** ** Ties in the wavelength column *)

Lemma ties_from_cons k (a b : R) (rest : list R) :
  ties_from k (a :: b :: rest)
  = if bool_decide (b - a = 0) then k :: ties_from (S k) (b :: rest)
    else ties_from (S k) (b :: rest).
Proof. done. Qed.

(** The loop and its reading along the list agree. *)
Lemma spread_ties_from (pre : list R) (cur orig : R) (tail : list R) :
  spread_ties (ties_from (length pre) (orig :: tail)) (pre ++ cur :: tail)
  = (r ← spread_from cur orig tail; Ok (pre ++ r)).
Proof.
  revert pre cur orig. induction tail as [|b rest IH]; intros pre cur orig.
  { done. }
  rewrite ties_from_cons. cbn [spread_from].
  assert (Hnext : ∀ cur',
    spread_ties (ties_from (S (length pre)) (b :: rest))
      (pre ++ cur :: cur' :: rest)
    = (r ← spread_from cur' b rest; Ok (pre ++ cur :: r))).
  { intros cur'. specialize (IH (pre ++ [cur]) cur' b).
    rewrite length_app in IH. cbn [length] in IH.
    rewrite Nat.add_1_r, <- app_assoc in IH. cbn [app] in IH. rewrite IH.
    destruct (spread_from cur' b rest); csimpl; [|done].
    by rewrite <- app_assoc. }
  case_bool_decide as Htie.
  - destruct rest as [|c rest']; cbn [spread_ties].
    + rewrite (lookup_ge_None_2 _ (length pre + 2)%nat); [done|].
      rewrite length_app. simpl. lia.
    + assert (H2 : (pre ++ cur :: b :: c :: rest') !! (length pre + 2)%nat
                   = Some c).
      { rewrite lookup_app_r by lia.
        by replace (length pre + 2 - length pre)%nat with 2%nat by lia. }
      assert (H0 : (pre ++ cur :: b :: c :: rest') !! length pre = Some cur).
      { rewrite lookup_app_r by lia. by rewrite Nat.sub_diag. }
      rewrite H2, H0.
      rewrite decide_True by (rewrite length_app; simpl; lia).
      assert (Hins : <[(length pre + 1)%nat := (c + cur) / 2]>
                       (pre ++ cur :: b :: c :: rest')
                     = pre ++ cur :: (c + cur) / 2 :: c :: rest').
      { rewrite insert_app_r_alt by lia.
        by replace (length pre + 1 - length pre)%nat with 1%nat by lia. }
      rewrite Hins, Hnext. by destruct (spread_from _ b (c :: rest')).
  - rewrite Hnext. by destruct (spread_from b b rest).
Qed.

Lemma spread_from_sorted (cur orig : R) (tail : list R) :
  Sorted Rle (orig :: tail) →
  isolated_ties (orig :: tail) →
  (cur = orig ∨ match tail with b :: _ => orig < b ∧ cur < b | [] => True end) →
  ∃ r, spread_from cur orig tail = Ok r
     ∧ head r = Some cur
     ∧ length r = S (length tail)
     ∧ Sorted Rlt r.
Proof.
  revert cur orig. induction tail as [|b rest IH]; intros cur orig Hs Hiso HJ.
  { exists [cur]. repeat split; repeat constructor. }
  apply Sorted_inv in Hs as [Hs Hhd]. apply HdRel_inv in Hhd.
  destruct Hiso as [Htie Hiso]. cbn [spread_from].
  case_bool_decide as Heq.
  - assert (b = orig) as -> by lra.
    assert (cur = orig) as -> by (destruct HJ as [|[? _]]; [done|lra]).
    destruct rest as [|c rest']; [by destruct Htie|].
    specialize (Htie eq_refl).
    destruct (IH ((c + orig) / 2) orig Hs Hiso) as (r & Hr & Hh & Hl & Hsr).
    { right. split; lra. }
    rewrite Hr. csimpl. exists (orig :: r).
    split; [done|]. split; [done|]. split; [by simpl; rewrite Hl|].
    constructor; [done|].
    destruct r as [|x r]; [constructor|]. injection Hh as ->.
    constructor. lra.
  - assert (orig < b) by lra.
    destruct (IH b b Hs Hiso) as (r & Hr & Hh & Hl & Hsr); [by left|].
    rewrite Hr. csimpl. exists (cur :: r).
    split; [done|]. split; [done|]. split; [by simpl; rewrite Hl|].
    constructor; [done|].
    destruct r as [|x r]; [constructor|]. injection Hh as ->.
    constructor. destruct HJ as [->|[_ ?]]; lra.
Qed.

Lemma ties_from_increasing k (l : list R) : Sorted Rlt l → ties_from k l = [].
Proof.
  intros Hs. revert k. induction Hs as [|a l Hs IH Hhd]; intros k; [done|].
  destruct Hhd as [|b l Hab]; [done|].
  rewrite ties_from_cons, bool_decide_eq_false_2 by lra. apply IH.
Qed.

(** X10.  Ties in the wavelength column: on a non-decreasing column in
    which every pair of equal neighbours is followed by a strictly larger
    value, the loop of lines 184-186 returns a strictly increasing column of
    the same length; a strictly increasing column is returned as it is. *)
Theorem spread_ties_strictly_increasing (lmu : list R) :
  Sorted Rle lmu →
  isolated_ties lmu →
  (∃ lmu', spread_ties (ties_from 0 lmu) lmu = Ok lmu'
         ∧ length lmu' = length lmu
         ∧ Sorted Rlt lmu')
  ∧ (Sorted Rlt lmu → spread_ties (ties_from 0 lmu) lmu = Ok lmu).
Proof.
  intros Hs Hiso. split.
  - destruct lmu as [|a tail]; [by exists []|].
    destruct (spread_from_sorted a a tail Hs Hiso) as (r & Hr & _ & Hl & Hsr);
      [by left|].
    exists r. split; [|done].
    pose proof (spread_ties_from [] a a tail) as Heq.
    cbn [length app] in Heq. rewrite Heq, Hr. done.
  - intros Hlt. by rewrite ties_from_increasing.
Qed.

Lemma spread_ties_raises (idx : list nat) (lmu : list R) i :
  i ∈ idx → (length lmu <= i + 2)%nat →
  spread_ties idx lmu = Raise IndexError.
Proof.
  revert lmu. induction idx as [|j idx IH]; intros lmu Hi Hlen.
  { by apply elem_of_nil in Hi. }
  cbn [spread_ties].
  destruct (lmu !! (j + 2)%nat) as [b|] eqn:Hb; [|done].
  destruct (lmu !! j) as [a|]; [|done].
  case_decide; [|done].
  apply elem_of_cons in Hi as [->|Hi].
  - apply lookup_lt_Some in Hb. lia.
  - apply IH; [done|]. by rewrite length_insert.
Qed.

Lemma ties_from_trailing k (pre : list R) (a : R) :
  (k + length pre)%nat ∈ ties_from k (pre ++ [a; a]).
Proof.
  revert k. induction pre as [|x pre IH]; intros k.
  - simpl. rewrite bool_decide_eq_true_2 by lra.
    rewrite Nat.add_0_r. by left.
  - replace (k + length (x :: pre))%nat with (S k + length pre)%nat
      by (simpl; lia).
    destruct pre as [|y pre]; simpl app.
    + rewrite ties_from_cons. case_bool_decide; [right|]; apply (IH (S k)).
    + rewrite ties_from_cons. case_bool_decide; [right|]; apply (IH (S k)).
Qed.

(** X11.  A tie at the end of the wavelength column: when the last two
    wavelengths are equal the loop reads [lmu[i + 2]] past the end and
    raises [IndexError]. *)
Theorem spread_ties_trailing_tie (pre : list R) (a : R) :
  spread_ties (ties_from 0 (pre ++ [a; a])) (pre ++ [a; a])
  = Raise IndexError.
Proof.
  apply (spread_ties_raises _ _ (length pre)).
  - apply (ties_from_trailing 0).
  - rewrite length_app. simpl. lia.
Qed.

(** ** The loaders *)

Definition plain_models : list string :=
  ["kneiske"; "franceschini"; "dominguez"; "dominguez-upper";
   "dominguez-lower"]%string.


Section LoaderMore.
Context `{Fitpack, Constants, DataFiles}.

(** X12.  For the models [kneiske], [franceschini], [dominguez],
    [dominguez-upper] and [dominguez-lower] the named loader is the table
    reader applied to the file of the model. *)
Theorem readmodel_plain_is_readascii (model : string) :
  model ∈ plain_models →
  ∃ f, model_file model = Ok f ∧ readmodel model = readascii f.
Proof.
  intros Hin. unfold plain_models in Hin.
  repeat (apply elem_of_cons in Hin as [->|Hin]);
    try (by apply elem_of_nil in Hin).
  all: eexists; split; [reflexivity|].
  all: unfold readmodel, readascii; cbn [model_file String.eqb Ascii.eqb
         Bool.eqb mbind result_bind];
       destruct (loadtxt _) as [[x|a|tbl]|e]; try done;
       cbn; destruct (row0 tbl); try done; cbn;
       by destruct (col 0 (drop 1 tbl)).
Qed.


End LoaderMore.







Section LoaderUnits.
Context `{Fitpack, Constants, DataFiles}.



End LoaderUnits.

(** ** The further properties on concrete inputs *)

Lemma queries_unchanged_after_grid_assignment_witness :
  (@ebl_array merge_sort_numpy (PList [-1; 1]) (PArray [10])
     (@nuInu_setter affine_fit example_nuInu 2 2 example_ebl).1.1).2
  = (@ebl_array merge_sort_numpy (PList [-1; 1]) (PArray [10]) example_ebl).2
  ∧ (@ebl_array merge_sort_numpy (PList [-1; 1]) (PArray [10])
       (@nuInu_setter affine_fit example_nuInu 2 2 example_ebl).1.1).1.2
    = (@ebl_array merge_sort_numpy (PList [-1; 1]) (PArray [10])
         example_ebl).1.2
  ∧ (@ebl_array merge_sort_numpy (PList [-1; 1]) (PArray [10])
       (@loglmu_setter affine_fit [1; 10; 1000] 2 2 example_ebl).1.1).2
    = (@ebl_array merge_sort_numpy (PList [-1; 1]) (PArray [10]) example_ebl).2
  ∧ (@ebl_array merge_sort_numpy (PList [-1; 1]) (PArray [10])
       (@loglmu_setter affine_fit [1; 10; 1000] 2 2 example_ebl).1.1).1.2
    = (@ebl_array merge_sort_numpy (PList [-1; 1]) (PArray [10])
         example_ebl).1.2.
Proof.
  exact (@queries_unchanged_after_grid_assignment merge_sort_numpy affine_fit
           example_z example_lmu example_nuInu 2%nat 2%nat example_ebl
           example_nuInu [1; 10; 1000] 2%nat 2%nat
           (PList [-1; 1]) (PArray [10]) example_ebl_new).
Defined.

Lemma z_assignment_moves_warning_threshold_witness :
  (@ebl_array merge_sort_numpy (PList [-1; 1]) (PArray [10])
     (@z_setter affine_fit [3; 5] 2 2 example_ebl).1.1).1.2
  = below_warning 3 [-1; 1]
  ∧ (@ebl_array merge_sort_numpy (PList [-1; 1]) (PArray [10])
       (@z_setter affine_fit [3; 5] 2 2 example_ebl).1.1).2
    = (@ebl_array merge_sort_numpy (PList [-1; 1]) (PArray [10]) example_ebl).2
  ∧ (@ebl_array merge_sort_numpy (PList [-1; 1]) (PArray [10])
       (@z_setter affine_fit [] 2 2 example_ebl).1.1).2 = Raise IndexError.
Proof.
  exact (@z_assignment_moves_warning_threshold merge_sort_numpy affine_fit
           example_z example_lmu example_nuInu 2%nat 2%nat example_ebl
           3 [5] 2%nat 2%nat (PList [-1; 1]) (PArray [10]) example_ebl_new).
Defined.


Lemma ebl_array_scalar_query_witness :
  ∃ s,
    example_ebl !! "_EBL__eblSpline" = Some (ASpline s)
    ∧ (@ebl_array merge_sort_numpy (PScalar (1 / 2)) (PScalar 10)
         example_ebl).2
      = Ok [[pow10 (s (log10 10) (1 / 2))]].
Proof.
  apply (@ebl_array_scalar_query merge_sort_numpy affine_fit
           example_z example_lmu example_nuInu 2%nat 2%nat example_ebl
           (1 / 2) 10 example_ebl_new).
  lra.
Defined.

Lemma ebl_array_concatenation_witness :
  ∃ G11 G21 G12,
    (@ebl_array merge_sort_numpy (PArray [2]) (PArray [10; 1]) example_ebl).2
    = Ok G11
    ∧ (@ebl_array merge_sort_numpy (PArray [0; 1]) (PArray [10; 1])
         example_ebl).2 = Ok G21
    ∧ (@ebl_array merge_sort_numpy (PArray [2]) (PArray [5]) example_ebl).2
      = Ok G12
    ∧ (@ebl_array merge_sort_numpy (PArray ([2] ++ [0; 1])) (PArray [10; 1])
         example_ebl).2 = Ok (G11 ++ G21)
    ∧ (@ebl_array merge_sort_numpy (PArray [2]) (PArray ([10; 1] ++ [5]))
         example_ebl).2 = Ok (zip_with app G11 G12).
Proof.
  apply (@ebl_array_concatenation merge_sort_numpy affine_fit
           example_z example_lmu example_nuInu 2%nat 2%nat example_ebl
           [2] [0; 1] [10; 1] [5] example_ebl_new).
  - repeat constructor; lra.
  - repeat constructor; lra.
Defined.



Lemma ebl_int_vectorised_witness :
  ∃ a,
    (@ebl_int merge_sort_numpy trapezoid_quadrature (PArray [0; 1])
       (1 / 100) 1000 50 example_ebl).2 = Ok (VArr1 a)
    ∧ length a = 2%nat
    ∧ ∀ i zi, [0; 1] !! i = Some zi →
        ∃ v, a !! i = Some v
           ∧ (@ebl_int merge_sort_numpy trapezoid_quadrature (PScalar zi)
                (1 / 100) 1000 50 example_ebl).2 = Ok (VArr1 [v]).
Proof.
  exact (@ebl_int_vectorised merge_sort_numpy affine_fit trapezoid_quadrature
           example_z example_lmu example_nuInu 2%nat 2%nat example_ebl
           [0; 1] (1 / 100) 1000 50%nat example_ebl_new).
Defined.


Lemma spread_ties_strictly_increasing_witness :
  (∃ lmu', spread_ties (ties_from 0 [1; 1; 2; 3]) [1; 1; 2; 3] = Ok lmu'
         ∧ length lmu' = 4%nat
         ∧ Sorted Rlt lmu')
  ∧ (Sorted Rlt [1; 1; 2; 3] →
     spread_ties (ties_from 0 [1; 1; 2; 3]) [1; 1; 2; 3] = Ok [1; 1; 2; 3]).
Proof.
  apply (spread_ties_strictly_increasing [1; 1; 2; 3]).
  - repeat constructor; lra.
  - simpl. repeat split; intros; lra.
Defined.

Lemma readmodel_plain_is_readascii_witness :
  ∃ f,
    @model_file example_files "dominguez" = Ok f
    ∧ @readmodel affine_fit codata example_files "dominguez"
      = @readascii affine_fit example_files f.
Proof.
  apply (@readmodel_plain_is_readascii affine_fit codata example_files
           "dominguez").
  unfold plain_models. repeat constructor.
Defined.






(** ** Construction and the fit *)

Section ConstructionErrors.
Context `{Fitpack}.

End ConstructionErrors.
